(** * Room lifecycle and message relay of the Socket.IO chat server

    A shallow embedding of the server half of [chat.tsx] (the part after the
    React component): the module-level [rooms] map, [getAvailableRooms],
    [generateUniquePin], and the handlers registered for every connection
    ([create_room], [join_room], [send_message], [leave_room], [disconnect],
    the deletion timer armed by [leaveCurrentRoom]).

    Modelling choices, all visible in the definitions below:
    - a JavaScript [Map] is an insertion-ordered association list with
      unique string keys ([JSMap]); [Array.from(m.values())] is [values];
    - JavaScript numbers that the server handles are integers ([Z]); an
      absent ([undefined]/[null]) payload field is [None];
    - [Math.random()] is an oracle: the handler receives the finite list of
      values the generator would return, each a rational in [0,1), and the
      arithmetic on them is exact;
    - [setTimeout]/[clearTimeout] act on a list of pending timers carried by
      the state, together with a millisecond clock;
    - [roomTimers] is declared inside the [io.on('connection', ...)] callback,
      so every connection owns its own [roomTimers] map, which outlives the
      socket because the timer closures capture it;
    - [socket.emit], [io.to(pin).emit] and [io.emit] are recorded as outputs
      with their target; the Socket.IO rooms entered with [socket.join] and
      left with [socket.leave] are kept per socket, so that [deliver] can
      tell which sockets an emit reaches; [console.log] is not modelled. *)

From Stdlib Require Import ZArith QArith Qround List String Ascii Bool Lia.
From Stdlib Require Import DecimalString DecimalZ.
Import ListNotations.

Local Open Scope string_scope.
Local Open Scope list_scope.
Local Open Scope Z_scope.

(* ===================================================================== *)
(** ** JavaScript [Map] with string keys *)
(* ===================================================================== *)

Module JSMap.
Section Ops.
Context {V : Type}.

Definition t := list (string * V).

Definition empty : list (string * V) := [].

Fixpoint get (k : string) (m : list (string * V)) : option V :=
  match m with
  | [] => None
  | (k', v) :: rest => if String.eqb k k' then Some v else get k rest
  end.

Definition has (k : string) (m : list (string * V)) : bool :=
  match get k m with Some _ => true | None => false end.

(** [m.set(k, v)]: an existing key keeps its position, a new key goes last. *)
Fixpoint set (k : string) (v : V) (m : list (string * V)) : list (string * V) :=
  match m with
  | [] => [(k, v)]
  | (k', v') :: rest =>
      if String.eqb k k' then (k, v) :: rest else (k', v') :: set k v rest
  end.

Fixpoint delete (k : string) (m : list (string * V)) : list (string * V) :=
  match m with
  | [] => []
  | (k', v') :: rest =>
      if String.eqb k k' then delete k rest else (k', v') :: delete k rest
  end.

Definition size (m : list (string * V)) : Z := Z.of_nat (List.length m).

Definition keys (m : list (string * V)) : list string := List.map fst m.

Definition values (m : list (string * V)) : list V := List.map snd m.
End Ops.
Arguments t : clear implicits.
End JSMap.

(* ===================================================================== *)
(** ** JavaScript truthiness and [||] defaults *)
(* ===================================================================== *)

(** [s || d] for an optional string: [undefined] and the empty string are
    falsy. *)
Definition str_or (s : option string) (d : string) : string :=
  match s with
  | Some x => if String.eqb x "" then d else x
  | None => d
  end.

(** [n || d] for an optional number: [undefined] and [0] are falsy. *)
Definition num_or (n : option Z) (d : Z) : Z :=
  match n with
  | Some x => if x =? 0 then d else x
  | None => d
  end.

(** The value of [pin && ...]'s left operand as a condition. *)
Definition truthy (s : option string) : option string :=
  match s with
  | Some x => if String.eqb x "" then None else Some x
  | None => None
  end.

(* ===================================================================== *)
(** ** Data *)
(* ===================================================================== *)

Record Message := mkMessage {
  msg_id : option string;
  author : string;
  content : string
}.

(** The object stored under a pin by [rooms.set(pin, {...})]. *)
Record Room := mkRoom {
  number : string;
  participants : JSMap.t string;
  maxParticipants : Z;
  messages : list Message
}.

Record AvailableRoom := mkAvailableRoom {
  ar_pin : string;
  ar_roomNumber : string;
  ar_currentParticipants : Z;
  ar_maxParticipants : Z
}.

Record RoomInfo := mkRoomInfo {
  ri_pin : string;
  ri_roomNumber : option string;
  ri_currentParticipants : Z;
  ri_maxParticipants : Z
}.

(** Payload of [user_joined] and [user_left]. *)
Record UserNotice := mkUserNotice {
  un_nickname : option string;
  un_roomNumber : string;
  un_currentParticipants : Z;
  un_maxParticipants : Z
}.

Inductive Event :=
| host_info
| available_rooms (l : list AvailableRoom)
| room_participants (l : list string)
| room_created (info : RoomInfo)
| join_error (message : string)
| room_history (l : list Message)
| user_joined (n : UserNotice)
| receive_message (m : Message)
| user_left (n : UserNotice).

Inductive Target :=
| ToSocket (sid : string)   (* socket.emit *)
| ToRoom (pin : string)     (* io.to(pin).emit *)
| ToAll.                    (* io.emit *)

Record Output := Emit { target : Target; event : Event }.

(** A pending [setTimeout] callback of [leaveCurrentRoom]: the closure
    captures [pin] and the [roomTimers] map of the connection that armed it. *)
Record Timer := mkTimer {
  tid : Z;
  owner : string;
  tpin : string;
  delay : Z;
  due : Z
}.

(** Per-connection state: the fields the handlers attach to [socket], the
    Socket.IO rooms the socket has joined, and the connection's [roomTimers]. *)
Record Socket := mkSocket {
  connected : bool;
  nickname : option string;
  currentRoom : option string;
  joined : list string;
  roomTimers : JSMap.t Z
}.

Record State := mkState {
  rooms : JSMap.t Room;
  sockets : JSMap.t Socket;
  pending : list Timer;
  nextTimerId : Z;
  now : Z
}.

Definition init : State :=
  {| rooms := JSMap.empty; sockets := JSMap.empty; pending := [];
     nextTimerId := 1; now := 0 |}.

Definition newSocket : Socket :=
  {| connected := true; nickname := None; currentRoom := None;
     joined := []; roomTimers := JSMap.empty |}.

(* ===================================================================== *)
(** ** Module-level functions *)
(* ===================================================================== *)

Definition availableEntry (e : string * Room) : AvailableRoom :=
  {| ar_pin := fst e;
     ar_roomNumber := number (snd e);
     ar_currentParticipants := JSMap.size (participants (snd e));
     ar_maxParticipants := maxParticipants (snd e) |}.

Definition notFull (e : string * Room) : bool :=
  JSMap.size (participants (snd e)) <? maxParticipants (snd e).

Definition getAvailableRooms (rs : JSMap.t Room) : list AvailableRoom :=
  List.map availableEntry (List.filter notFull rs).

(** [Number.prototype.toString] on an integer: its decimal digits. *)
Definition toString (z : Z) : string := NilZero.string_of_int (Z.to_int z).

(** A value [Math.random()] may return. *)
Definition Math_random_ok (r : Q) : bool :=
  (0 <=? Qnum r) && (Qnum r <? Z.pos (Qden r)).

(** [Math.floor(100000 + r * 900000)] for a value [r] of [Math.random()]. *)
Definition drawNumber (r : Q) : Z :=
  Qfloor (inject_Z 100000 + r * inject_Z 900000)%Q.

(** [Math.floor(100000 + r * 900000).toString()]. *)
Definition samplePin (r : Q) : string := toString (drawNumber r).

(** The [do ... while (rooms.has(pin))] loop, run on the values the random
    generator returns; [None] when every supplied draw collided, i.e. the
    loop is still spinning. *)
Fixpoint generateUniquePin (rs : JSMap.t Room) (draws : list Q) : option string :=
  match draws with
  | [] => None
  | r :: rest =>
      let pin := samplePin r in
      if JSMap.has pin rs then generateUniquePin rs rest else Some pin
  end.

(** [clearTimeout(id)]. *)
Definition clearTimeout (i : Z) (ts : list Timer) : list Timer :=
  List.filter (fun t => negb (tid t =? i)) ts.

(** [clearTimeout(m.get(pin))] guarded by [m.has(pin)]. *)
Definition clearTimerOf (pin : string) (m : JSMap.t Z) (ts : list Timer) : list Timer :=
  match JSMap.get pin m with
  | Some i => clearTimeout i ts
  | None => ts
  end.

(** [socket.join(pin)] and [socket.leave(pin)] on the set [socket.rooms]. *)
Definition sio_join (pin : string) (js : list string) : list string :=
  if existsb (String.eqb pin) js then js else js ++ [pin].

Definition sio_leave (pin : string) (js : list string) : list string :=
  List.filter (fun p => negb (String.eqb pin p)) js.

(** The sockets an emit reaches. *)
Definition deliver (st : State) (t : Target) : list string :=
  match t with
  | ToSocket sid => [sid]
  | ToRoom pin =>
      JSMap.keys (List.filter
        (fun e => connected (snd e) && existsb (String.eqb pin) (joined (snd e)))
        (sockets st))
  | ToAll => JSMap.keys (List.filter (fun e => connected (snd e)) (sockets st))
  end.

(* ===================================================================== *)
(** ** Handlers registered by [io.on('connection', ...)] *)
(* ===================================================================== *)

Definition msgNotFound : string :=
  "La sala no existe. Verifica el PIN e intenta nuevamente.".

Definition msgFull : string :=
  "La sala está llena. Intenta más tarde o crea una nueva sala.".

Definition sinNumero : string := "Sin número".

(** The grace period passed to [setTimeout]. *)
Definition graceMillis : Z := 30000.

(** The body of the connection callback itself. *)
Definition on_connection (sid : string) (st : State) : State * list Output :=
  ({| rooms := rooms st;
      sockets := JSMap.set sid newSocket (sockets st);
      pending := pending st;
      nextTimerId := nextTimerId st;
      now := now st |},
   [Emit (ToSocket sid) host_info]).

Definition on_get_available_rooms (sid : string) (st : State) : State * list Output :=
  (st, [Emit (ToSocket sid) (available_rooms (getAvailableRooms (rooms st)))]).

Definition on_get_room_participants (sid : string) (sk : Socket) (st : State)
  : State * list Output :=
  match truthy (currentRoom sk) with
  | Some pin =>
      match JSMap.get pin (rooms st) with
      | Some room =>
          (st, [Emit (ToSocket sid)
                  (room_participants (JSMap.values (participants room)))])
      | None => (st, [])
      end
  | None => (st, [])
  end.

Definition on_create_room (sid : string) (sk : Socket)
    (maxP : option Z) (roomNumber : option string) (nick : string)
    (draws : list Q) (st : State) : option (State * list Output) :=
  match generateUniquePin (rooms st) draws with
  | None => None
  | Some pin =>
      let ts1 := if JSMap.has pin (roomTimers sk)
                 then clearTimerOf pin (roomTimers sk) (pending st)
                 else pending st in
      let rt1 := if JSMap.has pin (roomTimers sk)
                 then JSMap.delete pin (roomTimers sk)
                 else roomTimers sk in
      let room0 := {| number := str_or roomNumber sinNumero;
                      participants := JSMap.empty;
                      maxParticipants := num_or maxP 5;
                      messages := [] |} in
      let room1 := {| number := number room0;
                      participants := JSMap.set sid nick (participants room0);
                      maxParticipants := maxParticipants room0;
                      messages := messages room0 |} in
      let rs1 := JSMap.set pin room1 (JSMap.set pin room0 (rooms st)) in
      let sk1 := {| connected := connected sk;
                    nickname := Some nick;
                    currentRoom := Some pin;
                    joined := sio_join pin (joined sk);
                    roomTimers := rt1 |} in
      Some ({| rooms := rs1;
               sockets := JSMap.set sid sk1 (sockets st);
               pending := ts1;
               nextTimerId := nextTimerId st;
               now := now st |},
            [Emit (ToSocket sid)
               (room_created
                  {| ri_pin := pin;
                     ri_roomNumber := roomNumber;
                     ri_currentParticipants := JSMap.size (participants room1);
                     ri_maxParticipants := maxParticipants room1 |});
             Emit ToAll (available_rooms (getAvailableRooms rs1))])
  end.

Definition on_join_room (sid : string) (sk : Socket) (pin nick : string)
    (st : State) : State * list Output :=
  match JSMap.get pin (rooms st) with
  | None => (st, [Emit (ToSocket sid) (join_error msgNotFound)])
  | Some room =>
      if JSMap.size (participants room) >=? maxParticipants room
      then (st, [Emit (ToSocket sid) (join_error msgFull)])
      else
        let ts1 := if JSMap.has pin (roomTimers sk)
                   then clearTimerOf pin (roomTimers sk) (pending st)
                   else pending st in
        let rt1 := if JSMap.has pin (roomTimers sk)
                   then JSMap.delete pin (roomTimers sk)
                   else roomTimers sk in
        let room1 := {| number := number room;
                        participants := JSMap.set sid nick (participants room);
                        maxParticipants := maxParticipants room;
                        messages := messages room |} in
        let rs1 := JSMap.set pin room1 (rooms st) in
        let sk1 := {| connected := connected sk;
                      nickname := Some nick;
                      currentRoom := Some pin;
                      joined := sio_join pin (joined sk);
                      roomTimers := rt1 |} in
        let participantsList := JSMap.values (participants room1) in
        ({| rooms := rs1;
            sockets := JSMap.set sid sk1 (sockets st);
            pending := ts1;
            nextTimerId := nextTimerId st;
            now := now st |},
         [Emit (ToSocket sid) (room_history (messages room1));
          Emit (ToRoom pin) (room_participants participantsList);
          Emit (ToRoom pin) (room_participants participantsList);
          Emit (ToRoom pin)
            (user_joined
               {| un_nickname := Some nick;
                  un_roomNumber := str_or (Some (number room1)) sinNumero;
                  un_currentParticipants := JSMap.size (participants room1);
                  un_maxParticipants := maxParticipants room1 |});
          Emit ToAll (available_rooms (getAvailableRooms rs1))])
  end.

Definition on_send_message (sid : string) (sk : Socket) (msg : Message)
    (st : State) : State * list Output :=
  match truthy (currentRoom sk) with
  | Some pin =>
      match JSMap.get pin (rooms st) with
      | Some room =>
          let room1 := {| number := number room;
                          participants := participants room;
                          maxParticipants := maxParticipants room;
                          messages := messages room ++ [msg] |} in
          ({| rooms := JSMap.set pin room1 (rooms st);
              sockets := sockets st;
              pending := pending st;
              nextTimerId := nextTimerId st;
              now := now st |},
           [Emit (ToRoom pin) (receive_message msg)])
      | None => (st, [])
      end
  | None => (st, [])
  end.

Definition leaveCurrentRoom (sid : string) (sk : Socket) (st : State)
  : State * list Output :=
  match truthy (currentRoom sk) with
  | Some pin =>
      match JSMap.get pin (rooms st) with
      | Some room =>
          let room1 := {| number := number room;
                          participants := JSMap.delete sid (participants room);
                          maxParticipants := maxParticipants room;
                          messages := messages room |} in
          let rs1 := JSMap.set pin room1 (rooms st) in
          let participantsList := JSMap.values (participants room1) in
          let emptied := JSMap.size (participants room1) =? 0 in
          let timerId := nextTimerId st in
          let ts1 :=
            if emptied
            then (if JSMap.has pin (roomTimers sk)
                  then clearTimerOf pin (roomTimers sk) (pending st)
                  else pending st)
                 ++ [{| tid := timerId; owner := sid; tpin := pin;
                        delay := graceMillis; due := now st + graceMillis |}]
            else pending st in
          let rt1 := if emptied
                     then JSMap.set pin timerId (roomTimers sk)
                     else roomTimers sk in
          let sk1 := {| connected := connected sk;
                        nickname := nickname sk;
                        currentRoom := None;
                        joined := sio_leave pin (joined sk);
                        roomTimers := rt1 |} in
          ({| rooms := rs1;
              sockets := JSMap.set sid sk1 (sockets st);
              pending := ts1;
              nextTimerId := if emptied then timerId + 1 else timerId;
              now := now st |},
           [Emit (ToRoom pin)
              (user_left
                 {| un_nickname := nickname sk;
                    un_roomNumber := str_or (Some (number room1)) sinNumero;
                    un_currentParticipants := JSMap.size (participants room1);
                    un_maxParticipants := maxParticipants room1 |});
            Emit (ToRoom pin) (room_participants participantsList);
            Emit ToAll (available_rooms (getAvailableRooms rs1))])
      | None => (st, [])
      end
  | None => (st, [])
  end.

(** The [disconnect] handler. Socket.IO has already taken the socket out of
    every room it had joined when this event is dispatched. *)
Definition on_disconnect (sid : string) (sk : Socket) (st : State)
  : State * list Output :=
  let sk0 := {| connected := false;
                nickname := nickname sk;
                currentRoom := currentRoom sk;
                joined := [];
                roomTimers := roomTimers sk |} in
  leaveCurrentRoom sid sk0
    {| rooms := rooms st;
       sockets := JSMap.set sid sk0 (sockets st);
       pending := pending st;
       nextTimerId := nextTimerId st;
       now := now st |}.

(** [roomTimers.delete(pin)] inside the timer closure, on the map of the
    connection that armed the timer. *)
Definition forgetTimer (own pin : string) (ss : JSMap.t Socket) : JSMap.t Socket :=
  match JSMap.get own ss with
  | Some sk =>
      JSMap.set own
        {| connected := connected sk;
           nickname := nickname sk;
           currentRoom := currentRoom sk;
           joined := joined sk;
           roomTimers := JSMap.delete pin (roomTimers sk) |} ss
  | None => ss
  end.

(** The arrow function given to [setTimeout], run on the state in which the
    timer has already left the pending list. *)
Definition onTimeout (tm : Timer) (st : State) : State * list Output :=
  match JSMap.get (tpin tm) (rooms st) with
  | Some room =>
      if JSMap.size (participants room) =? 0
      then
        let rs1 := JSMap.delete (tpin tm) (rooms st) in
        ({| rooms := rs1;
            sockets := forgetTimer (owner tm) (tpin tm) (sockets st);
            pending := pending st;
            nextTimerId := nextTimerId st;
            now := now st |},
         [Emit ToAll (available_rooms (getAvailableRooms rs1))])
      else (st, [])
  | None => (st, [])
  end.

(* ===================================================================== *)
(** ** The event loop *)
(* ===================================================================== *)

Inductive Input :=
| Connect (sid : string)
| GetAvailableRooms (sid : string)
| GetRoomParticipants (sid : string)
| CreateRoom (sid : string) (maxP : option Z) (roomNumber : option string)
             (nick : string) (draws : list Q)
| JoinRoom (sid : string) (pin nick : string)
| SendMessage (sid : string) (msg : Message)
| LeaveRoom (sid : string)
| Disconnect (sid : string)
| Elapse (ms : Z)
| TimerFire (i : Z).

(** The socket record of a live connection. *)
Definition liveSocket (sid : string) (st : State) : option Socket :=
  match JSMap.get sid (sockets st) with
  | Some sk => if connected sk then Some sk else None
  | None => None
  end.

Definition findTimer (i : Z) (ts : list Timer) : option Timer :=
  List.find (fun t => tid t =? i) ts.

(** One turn of the event loop. [None] means that the input is not an event
    the server can see in this state (a socket id that is not connected or is
    already taken, a timer that is not due, a random value outside [0,1)) or
    that the handler has not returned ([generateUniquePin] still looping). *)
Definition step (st : State) (i : Input) : option (State * list Output) :=
  match i with
  | Connect sid =>
      if JSMap.has sid (sockets st) then None else Some (on_connection sid st)
  | GetAvailableRooms sid =>
      match liveSocket sid st with
      | Some _ => Some (on_get_available_rooms sid st)
      | None => None
      end
  | GetRoomParticipants sid =>
      match liveSocket sid st with
      | Some sk => Some (on_get_room_participants sid sk st)
      | None => None
      end
  | CreateRoom sid maxP roomNumber nick draws =>
      match liveSocket sid st with
      | Some sk =>
          if forallb Math_random_ok draws
          then on_create_room sid sk maxP roomNumber nick draws st
          else None
      | None => None
      end
  | JoinRoom sid pin nick =>
      match liveSocket sid st with
      | Some sk => Some (on_join_room sid sk pin nick st)
      | None => None
      end
  | SendMessage sid msg =>
      match liveSocket sid st with
      | Some sk => Some (on_send_message sid sk msg st)
      | None => None
      end
  | LeaveRoom sid =>
      match liveSocket sid st with
      | Some sk => Some (leaveCurrentRoom sid sk st)
      | None => None
      end
  | Disconnect sid =>
      match liveSocket sid st with
      | Some sk => Some (on_disconnect sid sk st)
      | None => None
      end
  | Elapse ms =>
      if ms <? 0 then None
      else Some ({| rooms := rooms st;
                    sockets := sockets st;
                    pending := pending st;
                    nextTimerId := nextTimerId st;
                    now := now st + ms |}, [])
  | TimerFire i =>
      match findTimer i (pending st) with
      | Some tm =>
          if due tm <=? now st
          then Some (onTimeout tm
                       {| rooms := rooms st;
                          sockets := sockets st;
                          pending := clearTimeout i (pending st);
                          nextTimerId := nextTimerId st;
                          now := now st |})
          else None
      | None => None
      end
  end.

(** A run of the event loop on a sequence of inputs, with the outputs in the
    order they were emitted. *)
Fixpoint run (st : State) (tr : list Input) : option (State * list Output) :=
  match tr with
  | [] => Some (st, [])
  | i :: rest =>
      match step st i with
      | Some (st1, o1) =>
          match run st1 rest with
          | Some (st2, o2) => Some (st2, o1 ++ o2)
          | None => None
          end
      | None => None
      end
  end.

(* ===================================================================== *)
(** ** Decimal digits of a pin *)
(* ===================================================================== *)

Module Digits.
Import Decimal.

(** The digit constructor of [Decimal.uint] for a digit value. *)
Definition digit (k : Z) (u : uint) : uint :=
  match k with
  | 0 => D0 u | 1 => D1 u | 2 => D2 u | 3 => D3 u | 4 => D4 u
  | 5 => D5 u | 6 => D6 u | 7 => D7 u | 8 => D8 u | _ => D9 u
  end.

Definition digitChar (k : Z) : ascii :=
  match k with
  | 0 => "0" | 1 => "1" | 2 => "2" | 3 => "3" | 4 => "4"
  | 5 => "5" | 6 => "6" | 7 => "7" | 8 => "8" | _ => "9"
  end%char.

(** The [i]-th decimal digit of [n], counted from the right. *)
Definition nth_digit (n : Z) (i : Z) : Z := (n / 10 ^ i) mod 10.

(** The six decimal digits of [n], most significant first. *)
Definition sixDigits (n : Z) : string :=
  String (digitChar (nth_digit n 5))
 (String (digitChar (nth_digit n 4))
 (String (digitChar (nth_digit n 3))
 (String (digitChar (nth_digit n 2))
 (String (digitChar (nth_digit n 1))
 (String (digitChar (nth_digit n 0)) ""))))).

Definition sixUint (n : Z) : uint :=
  digit (nth_digit n 5) (digit (nth_digit n 4) (digit (nth_digit n 3)
 (digit (nth_digit n 2) (digit (nth_digit n 1) (digit (nth_digit n 0) Nil))))).
End Digits.

(* ===================================================================== *)
(** ** Observations on runs *)
(* ===================================================================== *)

(** The pin announced by a [room_created] output. *)
Definition createdPin (o : Output) : list string :=
  match event o with
  | room_created info => [ri_pin info]
  | _ => []
  end.

(** The pins returned by the [create_room] calls of a run, in order. *)
Definition createdPins (outs : list Output) : list string :=
  List.flat_map createdPin outs.

Definition isTimerFire (i : Input) : bool :=
  match i with TimerFire _ => true | _ => false end.

(** The room under [pin] is in the registry after every step of the run. *)
Fixpoint livesThrough (pin : string) (st : State) (tr : list Input) : bool :=
  match tr with
  | [] => true
  | i :: rest =>
      match step st i with
      | Some (st1, _) => JSMap.has pin (rooms st1) && livesThrough pin st1 rest
      | None => false
      end
  end.

(** What one output does to the sequence of messages relayed to the room
    created under [pin]: [room_created] starts a new room, a
    [receive_message] broadcast to the pin extends the sequence. *)
Definition logOutput (pin : string) (acc : list Message) (o : Output)
  : list Message :=
  match target o, event o with
  | ToSocket _, room_created info =>
      if String.eqb (ri_pin info) pin then [] else acc
  | ToRoom p, receive_message m =>
      if String.eqb p pin then acc ++ [m] else acc
  | _, _ => acc
  end.

(** The messages broadcast to the current room of [pin], oldest first. *)
Definition roomLog (pin : string) (outs : list Output) : list Message :=
  List.fold_left (logOutput pin) outs [].

(** The result of a run that completes. *)
Definition runFrom (st : State) (tr : list Input) : State * list Output :=
  match run st tr with
  | Some res => res
  | None => (st, [])
  end.

(** The state a run from [init] ends in, and what it emitted. *)
Definition stateAfter (tr : list Input) : State := fst (runFrom init tr).

Definition outputsAfter (tr : list Input) : list Output := snd (runFrom init tr).

(** How one turn of the event loop may change the object stored under a
    pin: nothing, a participant set, a participant removed, a message pushed,
    or (from no room at all) the room built by [create_room]. *)
Inductive RoomChange : option Room -> Room -> Prop :=
| rc_same r : RoomChange (Some r) r
| rc_join r sid nick :
    JSMap.size (participants r) < maxParticipants r ->
    RoomChange (Some r)
      {| number := number r;
         participants := JSMap.set sid nick (participants r);
         maxParticipants := maxParticipants r;
         messages := messages r |}
| rc_leave r sid :
    RoomChange (Some r)
      {| number := number r;
         participants := JSMap.delete sid (participants r);
         maxParticipants := maxParticipants r;
         messages := messages r |}
| rc_push r msg :
    RoomChange (Some r)
      {| number := number r;
         participants := participants r;
         maxParticipants := maxParticipants r;
         messages := messages r ++ [msg] |}
| rc_create sid nick maxP roomNumber :
    RoomChange None
      {| number := str_or roomNumber sinNumero;
         participants := JSMap.set sid nick JSMap.empty;
         maxParticipants := num_or maxP 5;
         messages := [] |}.

(** A pin that [generateUniquePin] can return. *)
Definition goodPin (pin : string) : Prop :=
  exists r, Math_random_ok r = true /\ pin = samplePin r.

(** Every pin in the registry was produced by [generateUniquePin]. *)
Definition pinsGood (st : State) : Prop :=
  forall p r, JSMap.get p (rooms st) = Some r -> goodPin p.


(** Every room's message log is the sequence of messages broadcast to its
    pin since the room was created. *)
Definition logsMatch (st : State) (outs : list Output) : Prop :=
  forall p r, JSMap.get p (rooms st) = Some r -> messages r = roomLog p outs.

(** A [join_room] request for [pin]. *)
Definition isJoinOf (pin : string) (i : Input) : bool :=
  match i with
  | JoinRoom _ p _ => String.eqb p pin
  | _ => false
  end.

(** The room under [pin], if there is one, has no participant. *)
Definition emptyOrGone (pin : string) (st : State) : Prop :=
  forall room, JSMap.get pin (rooms st) = Some room ->
               JSMap.size (participants room) = 0.

(** The socket [sid] is a key of the participant map of the room under
    [pin]. *)
Definition inRoom (sid pin : string) (rs : JSMap.t Room) : bool :=
  match JSMap.get pin rs with
  | Some room => JSMap.has sid (participants room)
  | None => false
  end.

(** The Socket.IO rooms mirror the participant maps: a connected socket has
    joined [pin] exactly when it is a participant of the room under [pin], a
    disconnected one has joined nothing, and every participant is a socket
    the server has seen. *)
Definition mirrors (ss : JSMap.t Socket) (rs : JSMap.t Room) : Prop :=
  NoDup (JSMap.keys ss)
  /\ (forall sid sk pin,
        JSMap.get sid ss = Some sk ->
        existsb (String.eqb pin) (joined sk) = connected sk && inRoom sid pin rs)
  /\ (forall sid pin, inRoom sid pin rs = true -> JSMap.has sid ss = true).

Definition sioMatches (st : State) : Prop := mirrors (sockets st) (rooms st).

(** The connected sockets that are participants of the room under [pin], in
    connection order. *)
Definition connectedParticipants (pin : string) (st : State) : list string :=
  JSMap.keys
    (List.filter (fun e => connected (snd e) && inRoom (fst e) pin (rooms st))
       (sockets st)).

(** The pending timers whose closure holds [pin]. *)
Definition timersFor (pin : string) (st : State) : list Timer :=
  List.filter (fun t => String.eqb (tpin t) pin) (pending st).

(** The [roomTimers] map of the connection [sid]. *)
Definition roomTimersIn (sid : string) (ss : JSMap.t Socket) : JSMap.t Z :=
  match JSMap.get sid ss with
  | Some sk => roomTimers sk
  | None => JSMap.empty
  end.

Definition roomTimers_of (sid : string) (st : State) : JSMap.t Z :=
  roomTimersIn sid (sockets st).

(** Every pending timer is the one its connection's [roomTimers] records for
    its pin, and timer ids are not shared. *)
Definition tracked (ss : JSMap.t Socket) (ts : list Timer) (next : Z) : Prop :=
  (forall t, In t ts ->
     tid t < next
     /\ JSMap.get (tpin t) (roomTimersIn (owner t) ss) = Some (tid t))
  /\ NoDup (List.map tid ts).

Definition timersTracked (st : State) : Prop :=
  tracked (sockets st) (pending st) (nextTimerId st).

(* ===================================================================== *)
(** ** Sample runs *)
(* ===================================================================== *)

Definition hola : Message :=
  {| msg_id := Some "m1"; author := "alice"; content := "hola" |}.

Definition adios : Message :=
  {| msg_id := None; author := "alice"; content := "adios" |}.

(** Alice connects and creates a room for two; the generator returns 0, so
    the pin is 100000. *)
Definition aliceCreates : list Input :=
  [Connect "a"; CreateRoom "a" (Some 2) (Some "7") "alice" [0 # 1]].

(** Bob joins her: the room is now full. A third socket connects. *)
Definition bobJoins : list Input :=
  aliceCreates ++ [Connect "b"; JoinRoom "b" "100000" "bob"; Connect "c"].

(** Alice talks and leaves her room, which is then empty. *)
Definition aliceLeaves : list Input :=
  aliceCreates ++ [SendMessage "a" hola; LeaveRoom "a"].

(** Bob joins the empty room from another connection before the 30 s are
    over. *)
Definition bobRejoins : list Input :=
  aliceLeaves ++ [Elapse 10000; Connect "b"; JoinRoom "b" "100000" "bob"].

(** Bob leaves as well, still before Alice's timer is due. *)
Definition bobLeaves : list Input :=
  bobRejoins ++ [Elapse 10000; LeaveRoom "b"].

(** Alice sends two messages to her room before Bob connects. *)
Definition aliceTalks : list Input :=
  aliceCreates ++ [SendMessage "a" hola; SendMessage "a" adios; Connect "b"].

(** After Bob has left, Alice's timer fires when it is due, 10 s after Bob
    left; 5 s later Carol tries to join. *)
Definition carolTooLate : list Input :=
  bobLeaves ++ [Elapse 10000; TimerFire 1; Elapse 5000;
                Connect "c"; JoinRoom "c" "100000" "carol"].

(** Alice's room is deleted by her timer; Bob then creates a room and the
    generator returns 0 again. *)
Definition bobReusesPin : list Input :=
  aliceLeaves ++ [Elapse 30000; TimerFire 1;
                  Connect "b"; CreateRoom "b" None None "bob" [0 # 1]].

(* ===================================================================== *)
(** ** Further observations *)
(* ===================================================================== *)

(** The entry [getAvailableRooms] pushes for the room stored under [pin]. *)
Definition entryOf (pin : string) (room : Room) : AvailableRoom :=
  availableEntry (pin, room).

(** The connection whose handler, or whose timer closure, runs in the turn
    for input [i]. *)
Definition actorOf (st : State) (i : Input) : option string :=
  match i with
  | Connect sid | GetAvailableRooms sid | GetRoomParticipants sid
  | CreateRoom sid _ _ _ _ | JoinRoom sid _ _ | SendMessage sid _
  | LeaveRoom sid | Disconnect sid => Some sid
  | Elapse _ => None
  | TimerFire i => option_map owner (findTimer i (pending st))
  end.

(** [l1] is an initial segment of [l2]. *)
Definition isPrefix {A} (l1 l2 : list A) : Prop := exists rest, l2 = l1 ++ rest.

(** Every room of the registry has a non-empty number. *)
Definition numbersSet (st : State) : Prop :=
  forall p r, JSMap.get p (rooms st) = Some r -> number r <> "".

(** A socket's [currentRoom], when set, names a room of the registry whose
    participant map has the socket as a key. *)
Definition anchored (ss : JSMap.t Socket) (rs : JSMap.t Room) : Prop :=
  forall sid sk pin,
    JSMap.get sid ss = Some sk -> currentRoom sk = Some pin ->
    inRoom sid pin rs = true.

Definition currentRoomsLive (st : State) : Prop :=
  anchored (sockets st) (rooms st).




(** Every pending timer was armed with the 30000 ms grace period and is due
    no later than that from now. *)
Definition timersWithinGrace (st : State) : Prop :=
  forall t, In t (pending st) ->
    delay t = graceMillis /\ due t <= now st + graceMillis.

(** The timer that the run [bobLeaves] leaves pending for connection "b". *)
Definition bobsTimer : Timer :=
  {| tid := 2; owner := "b"; tpin := "100000"; delay := 30000; due := 50000 |}.

(* ===================================================================== *)
(** ** The client's message list *)
(* ===================================================================== *)

(** [m.id === msg.id] on the optional [id] field. *)
Definition sameId (a b : option string) : bool :=
  match a, b with
  | Some x, Some y => String.eqb x y
  | None, None => true
  | _, _ => false
  end.

(** The state update of the client's [receive_message] listener: a message
    whose [id] is set is added only if no message of the list has that id;
    a message without [id] is always added. *)
Definition onReceiveMessage (msg : Message) (prev : list Message) : list Message :=
  match truthy (msg_id msg) with
  | Some _ =>
      if existsb (fun m => sameId (msg_id m) (msg_id msg)) prev
      then prev
      else prev ++ [msg]
  | None => prev ++ [msg]
  end.

(** The list after a sequence of [receive_message] events. *)
Definition receiveAll (msgs : list Message) (prev : list Message) : list Message :=
  List.fold_left (fun acc m => onReceiveMessage m acc) msgs prev.

(** The ids that take part in de-duplication: those that are set and not
    empty. *)
Definition dedupIds (l : list Message) : list string :=
  List.flat_map
    (fun m => match truthy (msg_id m) with Some i => [i] | None => [] end) l.

(* ===================================================================== *)
(** * Lemmas and theorems *)
(* ===================================================================== *)

(* ===================================================================== *)
(** ** Facts about [JSMap] *)
(* ===================================================================== *)

Module JSMapFacts.
Section Facts.
Context {V : Type}.
Implicit Types (m : list (string * V)) (k : string) (v : V).

Lemma get_set_eq k v m : JSMap.get k (JSMap.set k v m) = Some v.
Proof.
  induction m as [|[k' v'] m IH]; simpl.
  - now rewrite String.eqb_refl.
  - destruct (String.eqb k k') eqn:E; simpl.
    + now rewrite String.eqb_refl.
    + now rewrite E.
Qed.

Lemma get_set_ne k k' v m :
  k <> k' -> JSMap.get k' (JSMap.set k v m) = JSMap.get k' m.
Proof.
  intros Hne. induction m as [|[k0 v0] m IH]; simpl.
  - destruct (String.eqb k' k) eqn:E; [|reflexivity].
    apply String.eqb_eq in E. congruence.
  - destruct (String.eqb k k0) eqn:E; simpl.
    + apply String.eqb_eq in E. subst k0.
      destruct (String.eqb k' k) eqn:E'; [|reflexivity].
      apply String.eqb_eq in E'. congruence.
    + now rewrite IH.
Qed.

Lemma get_set k k' v m :
  JSMap.get k' (JSMap.set k v m)
  = if String.eqb k k' then Some v else JSMap.get k' m.
Proof.
  destruct (String.eqb k k') eqn:E.
  - apply String.eqb_eq in E. subst. apply get_set_eq.
  - apply String.eqb_neq in E. now apply get_set_ne.
Qed.

Lemma get_delete_eq k m : JSMap.get k (JSMap.delete k m) = None.
Proof.
  induction m as [|[k' v'] m IH]; simpl; [reflexivity|].
  destruct (String.eqb k k') eqn:E; simpl; [assumption|].
  now rewrite E.
Qed.

Lemma get_delete_ne k k' m :
  k <> k' -> JSMap.get k' (JSMap.delete k m) = JSMap.get k' m.
Proof.
  intros Hne. induction m as [|[k0 v0] m IH]; simpl; [reflexivity|].
  destruct (String.eqb k k0) eqn:E; simpl.
  - apply String.eqb_eq in E. subst k0.
    destruct (String.eqb k' k) eqn:E'; [|assumption].
    apply String.eqb_eq in E'. congruence.
  - now rewrite IH.
Qed.

Lemma get_delete_Some k k' v m :
  JSMap.get k' (JSMap.delete k m) = Some v -> JSMap.get k' m = Some v.
Proof.
  destruct (String.eqb k k') eqn:E.
  - apply String.eqb_eq in E. subst. now rewrite get_delete_eq.
  - apply String.eqb_neq in E. now rewrite get_delete_ne.
Qed.

Lemma has_true k m : JSMap.has k m = true <-> exists v, JSMap.get k m = Some v.
Proof.
  unfold JSMap.has. destruct (JSMap.get k m).
  - split; eauto.
  - split; [discriminate|]. intros [v Hv]. discriminate.
Qed.

Lemma has_false k m : JSMap.has k m = false <-> JSMap.get k m = None.
Proof.
  unfold JSMap.has. destruct (JSMap.get k m); split; congruence.
Qed.

Lemma get_In_keys k v m : JSMap.get k m = Some v -> In k (JSMap.keys m).
Proof.
  induction m as [|[k' v'] m IH]; simpl; [discriminate|].
  destruct (String.eqb k k') eqn:E.
  - apply String.eqb_eq in E. auto.
  - auto.
Qed.

Lemma keys_In_get k m : In k (JSMap.keys m) -> exists v, JSMap.get k m = Some v.
Proof.
  induction m as [|[k' v'] m IH]; simpl; [tauto|].
  intros [->|Hin].
  - rewrite String.eqb_refl. eauto.
  - destruct (String.eqb k k'); eauto.
Qed.

(** Overwriting an existing key keeps the key order and the size. *)
Lemma keys_set_present k v v0 m :
  JSMap.get k m = Some v0 -> JSMap.keys (JSMap.set k v m) = JSMap.keys m.
Proof.
  induction m as [|[k' v'] m IH]; simpl; [discriminate|].
  destruct (String.eqb k k') eqn:E; simpl.
  - apply String.eqb_eq in E. now subst.
  - intros H. now rewrite IH.
Qed.

Lemma keys_set_absent k v m :
  JSMap.get k m = None -> JSMap.keys (JSMap.set k v m) = JSMap.keys m ++ [k].
Proof.
  induction m as [|[k' v'] m IH]; simpl; [reflexivity|].
  destruct (String.eqb k k') eqn:E; simpl; [discriminate|].
  intros H. now rewrite IH.
Qed.

Lemma size_keys m : JSMap.size m = Z.of_nat (List.length (JSMap.keys m)).
Proof. unfold JSMap.size, JSMap.keys. now rewrite length_map. Qed.

Lemma size_set_present k v v0 m :
  JSMap.get k m = Some v0 -> JSMap.size (JSMap.set k v m) = JSMap.size m.
Proof.
  intros H. rewrite !size_keys. now rewrite (keys_set_present k v v0 m H).
Qed.



Lemma size_nonneg m : 0 <= JSMap.size m.
Proof. unfold JSMap.size. lia. Qed.

Lemma size_delete_le k m : JSMap.size (JSMap.delete k m) <= JSMap.size m.
Proof.
  unfold JSMap.size.
  induction m as [|[k' v'] m IH]; simpl; [lia|].
  destruct (String.eqb k k'); simpl; lia.
Qed.

Lemma keys_delete_notin k m : ~ In k (JSMap.keys (JSMap.delete k m)).
Proof.
  intros Hin. apply keys_In_get in Hin. destruct Hin as [v Hv].
  rewrite get_delete_eq in Hv. discriminate.
Qed.

Lemma NoDup_keys_set k v m :
  NoDup (JSMap.keys m) -> NoDup (JSMap.keys (JSMap.set k v m)).
Proof.
  intros Hnd. destruct (JSMap.get k m) eqn:E.
  - now rewrite (keys_set_present k v _ m E).
  - rewrite (keys_set_absent k v m E).
    apply NoDup_app; [assumption|repeat constructor; simpl; tauto|].
    intros x Hx [<-|[]].
    apply keys_In_get in Hx. destruct Hx as [w Hw]. congruence.
Qed.

Lemma keys_delete_incl k k' m :
  In k' (JSMap.keys (JSMap.delete k m)) -> In k' (JSMap.keys m).
Proof.
  intros Hin. apply keys_In_get in Hin. destruct Hin as [v Hv].
  apply get_delete_Some in Hv. eapply get_In_keys; eauto.
Qed.

Lemma NoDup_keys_delete k m :
  NoDup (JSMap.keys m) -> NoDup (JSMap.keys (JSMap.delete k m)).
Proof.
  induction m as [|[k' v'] m IH]; simpl; [auto|].
  intros Hnd. inversion Hnd as [|? ? Hnotin Hnd']; subst.
  destruct (String.eqb k k'); simpl; [auto|].
  constructor; [|auto].
  intros Hin. apply Hnotin. change (In k' (JSMap.keys m)).
  eapply keys_delete_incl; eauto.
Qed.
End Facts.
End JSMapFacts.

(* ===================================================================== *)
(** ** Facts about decimal printing *)
(* ===================================================================== *)

Module DigitsFacts.
Import Decimal Digits.

Ltac digit_cases k :=
  let H := fresh in
  assert (H : k = 0 \/ k = 1 \/ k = 2 \/ k = 3 \/ k = 4 \/ k = 5 \/ k = 6
              \/ k = 7 \/ k = 8 \/ k = 9) by lia;
  repeat (destruct H as [H|H]); subst k.

Lemma revapp_digit k u v :
  0 <= k <= 9 -> revapp (digit k u) v = revapp u (digit k v).
Proof. intros Hk. digit_cases k; reflexivity. Qed.

Lemma of_lu_digit k u :
  0 <= k <= 9 ->
  Z.of_N (DecimalPos.Unsigned.of_lu (digit k u))
  = k + 10 * Z.of_N (DecimalPos.Unsigned.of_lu u).
Proof.
  intros Hk. rewrite DecimalPos.Unsigned.of_lu_eqn.
  digit_cases k; simpl DecimalPos.Unsigned.hd; simpl DecimalPos.Unsigned.tl; lia.
Qed.

Lemma unorm_digit k u : 1 <= k <= 9 -> unorm (digit k u) = digit k u.
Proof.
  intros Hk.
  assert (H : k = 1 \/ k = 2 \/ k = 3 \/ k = 4 \/ k = 5 \/ k = 6
              \/ k = 7 \/ k = 8 \/ k = 9) by lia.
  repeat (destruct H as [H|H]); subst k; reflexivity.
Qed.

Lemma string_of_digit k u :
  0 <= k <= 9 ->
  NilEmpty.string_of_uint (digit k u)
  = String (digitChar k) (NilEmpty.string_of_uint u).
Proof. intros Hk. digit_cases k; reflexivity. Qed.

Lemma digit_nonnil k u : digit k u <> Nil.
Proof. destruct k as [|p|p]; [discriminate| |discriminate].
       do 4 (destruct p; try discriminate). Qed.

Lemma nth_digit_range n i : 0 <= nth_digit n i <= 9.
Proof. unfold nth_digit. pose proof (Z.mod_pos_bound (n / 10 ^ i) 10). lia. Qed.

Lemma of_sixUint n :
  0 <= n < 1000000 -> Z.of_uint (sixUint n) = n.
Proof.
  intros Hn. unfold Z.of_uint. rewrite DecimalPos.Unsigned.of_uint_alt.
  unfold sixUint, rev.
  rewrite !revapp_digit by apply nth_digit_range. simpl revapp.
  rewrite !of_lu_digit by apply nth_digit_range.
  simpl DecimalPos.Unsigned.of_lu.
  unfold nth_digit.
  change (10 ^ 5) with 100000. change (10 ^ 4) with 10000.
  change (10 ^ 3) with 1000. change (10 ^ 2) with 100.
  change (10 ^ 1) with 10. change (10 ^ 0) with 1.
  replace (n / 100000) with (n / 10 / 10 / 10 / 10 / 10)
    by (rewrite !Zdiv_Zdiv by lia; reflexivity).
  replace (n / 10000) with (n / 10 / 10 / 10 / 10)
    by (rewrite !Zdiv_Zdiv by lia; reflexivity).
  replace (n / 1000) with (n / 10 / 10 / 10)
    by (rewrite !Zdiv_Zdiv by lia; reflexivity).
  replace (n / 100) with (n / 10 / 10)
    by (rewrite !Zdiv_Zdiv by lia; reflexivity).
  rewrite Z.div_1_r. change (Z.of_N 0) with 0.
  pose proof (Z.div_mod n 10 ltac:(lia)).
  pose proof (Z.mod_pos_bound n 10 ltac:(lia)).
  set (q1 := n / 10) in *.
  pose proof (Z.div_mod q1 10 ltac:(lia)).
  pose proof (Z.mod_pos_bound q1 10 ltac:(lia)).
  set (q2 := q1 / 10) in *.
  pose proof (Z.div_mod q2 10 ltac:(lia)).
  pose proof (Z.mod_pos_bound q2 10 ltac:(lia)).
  set (q3 := q2 / 10) in *.
  pose proof (Z.div_mod q3 10 ltac:(lia)).
  pose proof (Z.mod_pos_bound q3 10 ltac:(lia)).
  set (q4 := q3 / 10) in *.
  pose proof (Z.div_mod q4 10 ltac:(lia)).
  pose proof (Z.mod_pos_bound q4 10 ltac:(lia)).
  set (q5 := q4 / 10) in *.
  assert (q5 mod 10 = q5) by (apply Z.mod_small; lia).
  lia.
Qed.

(** A number with six significant digits prints as those six digits. *)
Lemma toString_six n :
  100000 <= n <= 999999 -> toString n = sixDigits n.
Proof.
  intros Hn. unfold toString.
  assert (Hof : Z.of_int (Pos (sixUint n)) = n)
    by (simpl; apply of_sixUint; lia).
  rewrite <- Hof at 1. rewrite DecimalZ.to_of. simpl norm.
  assert (H5 : 1 <= nth_digit n 5 <= 9).
  { unfold nth_digit. change (10 ^ 5) with 100000.
    assert (1 <= n / 100000 <= 9) by (Z.div_mod_to_equations; lia).
    rewrite Z.mod_small by lia. lia. }
  unfold sixUint at 1. rewrite unorm_digit by assumption.
  unfold NilZero.string_of_int, NilZero.string_of_uint.
  fold (sixUint n).
  destruct (sixUint n) eqn:E;
    try (exfalso; unfold sixUint in E; revert E; apply digit_nonnil);
    rewrite <- E; unfold sixUint;
    rewrite !string_of_digit by apply nth_digit_range; reflexivity.
Qed.
End DigitsFacts.

(* ===================================================================== *)
(** ** The pin allocator *)
(* ===================================================================== *)

Section PinAllocator.
Import Digits.

Lemma Math_random_ok_spec r :
  Math_random_ok r = true <-> 0 <= Qnum r < Z.pos (Qden r).
Proof.
  unfold Math_random_ok. rewrite andb_true_iff, Z.leb_le, Z.ltb_lt. tauto.
Qed.

Lemma drawNumber_eq r :
  drawNumber r
  = (100000 * Z.pos (Qden r) + Qnum r * 900000) / Z.pos (Qden r).
Proof.
  destruct r as [p q]. unfold drawNumber, Qfloor, Qplus, Qmult, inject_Z.
  simpl Qnum. simpl Qden. rewrite Pos.mul_1_r, Pos.mul_1_l. f_equal. lia.
Qed.

(** A draw in [0,1) lands in 100000..999999. *)
Lemma drawNumber_range r :
  Math_random_ok r = true -> 100000 <= drawNumber r <= 999999.
Proof.
  rewrite Math_random_ok_spec, drawNumber_eq. intros [H0 H1].
  assert (Hq : 0 < Z.pos (Qden r)) by lia.
  split.
  - apply Z.div_le_lower_bound; [assumption|]. nia.
  - assert ((100000 * Z.pos (Qden r) + Qnum r * 900000) / Z.pos (Qden r)
            < 1000000); [|lia].
    apply Z.div_lt_upper_bound; [assumption|]. nia.
Qed.



Lemma leading_digit n : 100000 <= n <= 999999 -> 1 <= nth_digit n 5 <= 9.
Proof.
  intros Hn. unfold nth_digit. change (10 ^ 5) with 100000.
  assert (1 <= n / 100000 <= 9) by (Z.div_mod_to_equations; lia).
  rewrite Z.mod_small by lia. lia.
Qed.

(** The pin of a draw is six decimal digits, the first of them not zero. *)
Lemma samplePin_six r :
  Math_random_ok r = true ->
  samplePin r = sixDigits (drawNumber r)
  /\ 1 <= nth_digit (drawNumber r) 5 <= 9.
Proof.
  intros Hr. pose proof (drawNumber_range r Hr) as Hn. split.
  - unfold samplePin. now apply DigitsFacts.toString_six.
  - now apply leading_digit.
Qed.

Lemma samplePin_nonempty r : Math_random_ok r = true -> samplePin r <> "".
Proof.
  intros Hr. rewrite (proj1 (samplePin_six r Hr)). discriminate.
Qed.


Lemma generateUniquePin_sound rs draws pin :
  generateUniquePin rs draws = Some pin ->
  JSMap.has pin rs = false /\ exists r, In r draws /\ pin = samplePin r.
Proof.
  induction draws as [|r rest IH]; simpl; [discriminate|].
  destruct (JSMap.has (samplePin r) rs) eqn:E.
  - intros H. destruct (IH H) as [Hfree [x [Hin Hx]]]. eauto.
  - intros [= <-]. eauto.
Qed.

(** The loop rejects every colliding draw and returns the first free one. *)
Lemma generateUniquePin_retry rs rejected r rest :
  (forall x, In x rejected -> JSMap.has (samplePin x) rs = true) ->
  JSMap.has (samplePin r) rs = false ->
  generateUniquePin rs (rejected ++ r :: rest) = Some (samplePin r).
Proof.
  induction rejected as [|x xs IH]; simpl; intros Hrej Hfree.
  - now rewrite Hfree.
  - rewrite (Hrej x) by auto. apply IH; auto.
Qed.

End PinAllocator.

(* ===================================================================== *)
(** ** One turn of the event loop *)
(* ===================================================================== *)

Import JSMapFacts.

Ltac unfold_handlers H :=
  unfold step, on_connection, on_get_available_rooms, on_get_room_participants,
    on_create_room, on_join_room, on_send_message, on_disconnect,
    leaveCurrentRoom, onTimeout in H.

Ltac break_match H :=
  repeat match type of H with
  | context [match ?x with _ => _ end] =>
      lazymatch x with
      | context [match _ with _ => _ end] => fail
      | _ => destruct x eqn:?
      end
  end.

Ltac simpl_fields :=
  cbn [rooms sockets pending nextTimerId now
       connected nickname currentRoom joined roomTimers
       number participants maxParticipants messages
       target event ri_pin] in *.

Ltac step_inv H :=
  unfold_handlers H; cbv zeta in H; break_match H;
  try discriminate H; injection H as <- <-; simpl_fields.

Lemma forallb_In {A} (f : A -> bool) l x :
  forallb f l = true -> In x l -> f x = true.
Proof. rewrite forallb_forall. auto. Qed.

(** Every turn changes each room in one of the ways of [RoomChange]; a pin
    that enters the registry comes from [generateUniquePin]. *)
Lemma step_room_change st i st' outs p r' :
  step st i = Some (st', outs) ->
  JSMap.get p (rooms st') = Some r' ->
  RoomChange (JSMap.get p (rooms st)) r'
  /\ (JSMap.get p (rooms st) = None -> goodPin p).
Proof.
  intros Hstep Hget.
  step_inv Hstep; simpl in Hget;
    try (rewrite Hget; split; [constructor|discriminate]).
  all: repeat match goal with
       | H : JSMap.get _ (JSMap.set _ _ _) = Some _ |- _ =>
           rewrite get_set in H
       | H : (if String.eqb ?a ?b then _ else _) = Some _,
         E : String.eqb ?a ?b = _ |- _ => rewrite E in H
       | H : (if String.eqb ?a ?b then _ else _) = Some _ |- _ =>
           destruct (String.eqb a b) eqn:?Eab;
           [apply String.eqb_eq in Eab; subst; injection H as <- | ]
       end.
  all: try (rewrite Hget; split; [constructor|discriminate]).
  all: try match goal with
       | H : generateUniquePin _ _ = Some _ |- _ =>
           apply generateUniquePin_sound in H;
           destruct H as [Hfree [x [Hin ->]]];
           apply has_false in Hfree; rewrite Hfree; split;
           [apply rc_create
           |intros _; exists x; split;
            [eapply forallb_In; eassumption|reflexivity]]
       end.
  all: try match goal with
       | H : JSMap.get ?p (rooms ?st) = Some ?r
         |- RoomChange (JSMap.get ?p (rooms ?st)) _ /\ _ =>
           rewrite H; split; [|discriminate]
       end.
  all: try solve [constructor].
  - apply rc_join. rewrite Z.geb_leb in Heqb. now apply Z.leb_gt in Heqb.
  - apply rc_join. rewrite Z.geb_leb in Heqb. now apply Z.leb_gt in Heqb.
  - apply get_delete_Some in Hget. rewrite Hget. split; [constructor|discriminate].
Qed.

(* ===================================================================== *)
(** ** Runs and invariants *)
(* ===================================================================== *)

Lemma run_app st tr1 tr2 :
  run st (tr1 ++ tr2)
  = match run st tr1 with
    | Some (st1, o1) =>
        match run st1 tr2 with
        | Some (st2, o2) => Some (st2, o1 ++ o2)
        | None => None
        end
    | None => None
    end.
Proof.
  revert st. induction tr1 as [|i tr1 IH]; intros st; simpl.
  - destruct (run st tr2) as [[st2 o2]|]; reflexivity.
  - destruct (step st i) as [[st1 o1]|]; [|reflexivity].
    rewrite IH. destruct (run st1 tr1) as [[st2 o2]|]; [|reflexivity].
    destruct (run st2 tr2) as [[st3 o3]|]; [|reflexivity].
    now rewrite app_assoc.
Qed.

Lemma run_snoc st tr i st' outs :
  run st (tr ++ [i]) = Some (st', outs) ->
  exists st1 o1 o2,
    run st tr = Some (st1, o1) /\ step st1 i = Some (st', o2) /\ outs = o1 ++ o2.
Proof.
  rewrite run_app. destruct (run st tr) as [[st1 o1]|]; [|discriminate].
  simpl. destruct (step st1 i) as [[st2 o2]|] eqn:E; [|discriminate].
  intros [= <- <-]. exists st1, o1, o2. rewrite app_nil_r. auto.
Qed.

Lemma run_step st0 tr st outs i st' o :
  run st0 tr = Some (st, outs) ->
  step st i = Some (st', o) ->
  run st0 (tr ++ [i]) = Some (st', outs ++ o).
Proof.
  intros Hrun Hstep. rewrite run_app, Hrun. simpl. rewrite Hstep.
  now rewrite app_nil_r.
Qed.

(** Induction over the turns of a run, with the outputs emitted so far. *)
Lemma run_ind_outputs (P : State -> list Output -> Prop) st0 :
  P st0 [] ->
  (forall st o i st' o',
      P st o -> step st i = Some (st', o') -> P st' (o ++ o')) ->
  forall tr st outs, run st0 tr = Some (st, outs) -> P st outs.
Proof.
  intros Hinit Hstep tr. induction tr as [|i tr IH] using rev_ind; intros st outs Hrun.
  - simpl in Hrun. injection Hrun as <- <-. exact Hinit.
  - apply run_snoc in Hrun. destruct Hrun as (st1 & o1 & o2 & Hrun & Hst & ->).
    eapply Hstep; eauto.
Qed.

Lemma run_invariant (P : State -> Prop) st0 :
  P st0 ->
  (forall st i st' o', P st -> step st i = Some (st', o') -> P st') ->
  forall tr st outs, run st0 tr = Some (st, outs) -> P st.
Proof.
  intros Hinit Hstep tr st outs Hrun.
  apply (run_ind_outputs (fun s _ => P s) st0 Hinit) with (tr := tr) (outs := outs);
    [|assumption].
  intros; eapply Hstep; eauto.
Qed.

Lemma pinsGood_step st i st' o :
  pinsGood st -> step st i = Some (st', o) -> pinsGood st'.
Proof.
  intros Hinv Hstep p r' Hget.
  destruct (step_room_change _ _ _ _ _ _ Hstep Hget) as [_ Hnew].
  destruct (JSMap.get p (rooms st)) as [r|] eqn:E; [eapply Hinv; eauto|auto].
Qed.

Lemma pinsGood_run tr st outs : run init tr = Some (st, outs) -> pinsGood st.
Proof.
  apply (run_invariant pinsGood init).
  - intros p r H. discriminate H.
  - intros; eapply pinsGood_step; eauto.
Qed.




Lemma RoomChange_maxParticipants r r' :
  RoomChange (Some r) r' -> maxParticipants r' = maxParticipants r.
Proof. intros H. inversion H; subst; reflexivity. Qed.

Lemma truthy_goodPin p : goodPin p -> truthy (Some p) = Some p.
Proof.
  intros [r [Hr ->]]. unfold truthy.
  destruct (String.eqb (samplePin r) "") eqn:E; [|reflexivity].
  apply String.eqb_eq in E. now apply samplePin_nonempty in E.
Qed.

(* ===================================================================== *)
(** ** Joining *)
(* ===================================================================== *)

Lemma join_unknown st sid sk pin nick :
  liveSocket sid st = Some sk ->
  JSMap.has pin (rooms st) = false ->
  step st (JoinRoom sid pin nick)
  = Some (st, [Emit (ToSocket sid) (join_error msgNotFound)]).
Proof.
  intros Hlive Hhas. apply has_false in Hhas.
  unfold step. rewrite Hlive. unfold on_join_room. now rewrite Hhas.
Qed.

Lemma join_full st sid sk pin nick room :
  liveSocket sid st = Some sk ->
  JSMap.get pin (rooms st) = Some room ->
  maxParticipants room <= JSMap.size (participants room) ->
  step st (JoinRoom sid pin nick)
  = Some (st, [Emit (ToSocket sid) (join_error msgFull)]).
Proof.
  intros Hlive Hget Hfull.
  unfold step. rewrite Hlive. unfold on_join_room. rewrite Hget.
  assert (E : (JSMap.size (participants room) >=? maxParticipants room) = true)
    by (rewrite Z.geb_leb; now apply Z.leb_le).
  now rewrite E.
Qed.

(* ===================================================================== *)
(** ** Relaying messages *)
(* ===================================================================== *)

Lemma send_without_room st sid sk msg :
  liveSocket sid st = Some sk ->
  currentRoom sk = None
  \/ (exists pin, currentRoom sk = Some pin /\ JSMap.has pin (rooms st) = false) ->
  step st (SendMessage sid msg) = Some (st, []).
Proof.
  intros Hlive Hnone. unfold step. rewrite Hlive. unfold on_send_message.
  destruct Hnone as [->|[pin [-> Hhas]]]; [reflexivity|].
  apply has_false in Hhas. unfold truthy.
  destruct (String.eqb pin ""); [reflexivity|]. now rewrite Hhas.
Qed.

Lemma send_in_room st sid sk msg pin room :
  liveSocket sid st = Some sk ->
  truthy (currentRoom sk) = Some pin ->
  JSMap.get pin (rooms st) = Some room ->
  step st (SendMessage sid msg)
  = Some ({| rooms :=
               JSMap.set pin
                 {| number := number room;
                    participants := participants room;
                    maxParticipants := maxParticipants room;
                    messages := messages room ++ [msg] |} (rooms st);
             sockets := sockets st;
             pending := pending st;
             nextTimerId := nextTimerId st;
             now := now st |},
          [Emit (ToRoom pin) (receive_message msg)]).
Proof.
  intros Hlive Hcur Hget. unfold step. rewrite Hlive.
  unfold on_send_message. now rewrite Hcur, Hget.
Qed.

(* ===================================================================== *)
(** ** The registry across turns *)
(* ===================================================================== *)

(** The registry changes by [set] (once, or twice on the same new pin in
    [create_room]) in every handler, and by [delete] only in the timer. *)
Lemma step_rooms_shape st i st' o :
  step st i = Some (st', o) ->
  rooms st' = rooms st
  \/ (exists p r, rooms st' = JSMap.set p r (rooms st))
  \/ (exists p r0 r1, rooms st' = JSMap.set p r1 (JSMap.set p r0 (rooms st)))
  \/ (exists p, rooms st' = JSMap.delete p (rooms st) /\ isTimerFire i = true).
Proof.
  intros Hstep. step_inv Hstep; eauto 8.
Qed.

Lemma has_set_mono {V} (p q : string) (v : V) m :
  JSMap.has p m = true -> JSMap.has p (JSMap.set q v m) = true.
Proof.
  unfold JSMap.has. rewrite get_set.
  destruct (String.eqb q p); [reflexivity|auto].
Qed.

Lemma step_rooms_mono st i st' o p :
  step st i = Some (st', o) ->
  isTimerFire i = false ->
  JSMap.has p (rooms st) = true -> JSMap.has p (rooms st') = true.
Proof.
  intros Hstep Hnt Hhas.
  destruct (step_rooms_shape _ _ _ _ Hstep)
    as [->|[(q & r & ->)|[(q & r0 & r1 & ->)|(q & _ & Hfire)]]].
  - assumption.
  - now apply has_set_mono.
  - now do 2 apply has_set_mono.
  - congruence.
Qed.

Lemma NoDup_keys_step st i st' o :
  NoDup (JSMap.keys (rooms st)) -> step st i = Some (st', o) ->
  NoDup (JSMap.keys (rooms st')).
Proof.
  intros Hnd Hstep.
  destruct (step_rooms_shape _ _ _ _ Hstep)
    as [->|[(q & r & ->)|[(q & r0 & r1 & ->)|(q & -> & _)]]].
  - assumption.
  - now apply NoDup_keys_set.
  - now do 2 apply NoDup_keys_set.
  - now apply NoDup_keys_delete.
Qed.

(** What [create_room] does to the registry and what it announces. *)
Lemma create_room_allocates st sid maxP roomNumber nick draws st' outs :
  step st (CreateRoom sid maxP roomNumber nick draws) = Some (st', outs) ->
  exists pin,
    createdPins outs = [pin]
    /\ JSMap.has pin (rooms st) = false
    /\ JSMap.get pin (rooms st')
       = Some {| number := str_or roomNumber sinNumero;
                 participants := JSMap.set sid nick JSMap.empty;
                 maxParticipants := num_or maxP 5;
                 messages := [] |}.
Proof.
  intros Hstep. step_inv Hstep.
  all: match goal with
       | H : generateUniquePin _ _ = Some ?p |- _ =>
           exists p; apply generateUniquePin_sound in H; destruct H as [Hfree _]
       end.
  all: repeat split; [assumption|apply get_set_eq].
Qed.

(** [create_room] returns as soon as the generator yields a value whose pin
    is free. *)
Lemma create_room_completes st sid sk maxP roomNumber nick rejected r rest :
  liveSocket sid st = Some sk ->
  forallb Math_random_ok (rejected ++ r :: rest) = true ->
  (forall x, In x rejected -> JSMap.has (samplePin x) (rooms st) = true) ->
  JSMap.has (samplePin r) (rooms st) = false ->
  exists st' outs,
    step st (CreateRoom sid maxP roomNumber nick (rejected ++ r :: rest))
    = Some (st', outs)
    /\ createdPins outs = [samplePin r].
Proof.
  intros Hlive Hok Hrej Hfree. unfold step. rewrite Hlive, Hok.
  unfold on_create_room.
  rewrite (generateUniquePin_retry _ _ _ _ Hrej Hfree).
  eexists. eexists. split; reflexivity.
Qed.

(** Only [create_room] emits [room_created]. *)
Lemma step_createdPins st i st' outs :
  step st i = Some (st', outs) ->
  createdPins outs = []
  \/ exists pin,
       createdPins outs = [pin]
       /\ JSMap.has pin (rooms st) = false
       /\ JSMap.has pin (rooms st') = true.
Proof.
  intros Hstep. destruct i.
  4: { right. destruct (create_room_allocates _ _ _ _ _ _ _ _ Hstep)
         as (pin & Hout & Hfree & Hget).
       exists pin. repeat split; auto. apply has_true. eauto. }
  all: left; step_inv Hstep; reflexivity.
Qed.

Lemma createdPins_app o1 o2 :
  createdPins (o1 ++ o2) = createdPins o1 ++ createdPins o2.
Proof. unfold createdPins. apply flat_map_app. Qed.

Lemma step_maxParticipants st i st' outs pin r r' :
  step st i = Some (st', outs) ->
  JSMap.get pin (rooms st) = Some r ->
  JSMap.get pin (rooms st') = Some r' ->
  maxParticipants r' = maxParticipants r.
Proof.
  intros Hstep Hget Hget'.
  destruct (step_room_change _ _ _ _ _ _ Hstep Hget') as [Hch _].
  rewrite Hget in Hch. now apply RoomChange_maxParticipants.
Qed.

Lemma run_maxParticipants tr : forall st st' outs pin r,
  JSMap.get pin (rooms st) = Some r ->
  livesThrough pin st tr = true ->
  run st tr = Some (st', outs) ->
  exists r', JSMap.get pin (rooms st') = Some r'
             /\ maxParticipants r' = maxParticipants r.
Proof.
  induction tr as [|i tr IH]; intros st st' outs pin r Hget Hlive Hrun; simpl in *.
  - injection Hrun as <- <-. eauto.
  - destruct (step st i) as [[st1 o1]|] eqn:Hstep; [|discriminate].
    apply andb_true_iff in Hlive. destruct Hlive as [Hhas Hlive].
    apply has_true in Hhas. destruct Hhas as [r1 Hget1].
    destruct (run st1 tr) as [[st2 o2]|] eqn:Hrest; [|discriminate].
    injection Hrun as <- <-.
    destruct (IH st1 st2 o2 pin r1 Hget1 Hlive Hrest) as (r' & Hget' & Hmax).
    exists r'. split; [assumption|].
    rewrite Hmax. eapply step_maxParticipants; eauto.
Qed.

(** Uniqueness is among live rooms only: once the timer has deleted a
    room, a later [create_room] may be given its pin again. *)
Lemma pin_can_return_after_its_room_is_deleted :
  run init bobReusesPin
  = Some (stateAfter bobReusesPin, outputsAfter bobReusesPin)
  /\ createdPins (outputsAfter bobReusesPin) = ["100000"; "100000"].
Proof. split; vm_compute; reflexivity. Qed.

(* ===================================================================== *)
(** ** Message order *)
(* ===================================================================== *)

Lemma roomLog_app p o o' :
  roomLog p (o ++ o') = fold_left (logOutput p) o' (roomLog p o).
Proof. unfold roomLog. apply fold_left_app. Qed.

Ltac get_set_cases H :=
  repeat match type of H with
  | JSMap.get _ (JSMap.set _ _ _) = Some _ => rewrite get_set in H
  | (if String.eqb ?a ?b then _ else _) = Some _ =>
      match goal with
      | E : String.eqb a b = _ |- _ => rewrite E in H
      | _ => destruct (String.eqb a b) eqn:?Eab;
             [apply String.eqb_eq in Eab; subst; injection H as <- | ]
      end
  end.

Lemma logsMatch_step st o i st' o' :
  logsMatch st o -> step st i = Some (st', o') -> logsMatch st' (o ++ o').
Proof.
  intros Hinv Hstep p r' Hget. rewrite roomLog_app.
  step_inv Hstep; simpl fold_left; unfold logOutput; simpl_fields;
    try (now apply Hinv).
  all: get_set_cases Hget; simpl_fields.
  all: try rewrite String.eqb_refl.
  all: try match goal with
       | E : String.eqb ?a ?b = false |- context [String.eqb ?a ?b] =>
           rewrite E
       end.
  all: try (now apply Hinv).
  all: try (f_equal; now apply Hinv).
  apply get_delete_Some in Hget. now apply Hinv.
Qed.

Lemma logsMatch_run tr st outs : run init tr = Some (st, outs) -> logsMatch st outs.
Proof.
  apply (run_ind_outputs logsMatch init).
  - intros p r H. discriminate H.
  - intros; eapply logsMatch_step; eauto.
Qed.

Lemma join_success st sid sk pin nick room :
  liveSocket sid st = Some sk ->
  JSMap.get pin (rooms st) = Some room ->
  JSMap.size (participants room) < maxParticipants room ->
  exists st' rest,
    step st (JoinRoom sid pin nick)
    = Some (st', Emit (ToSocket sid) (room_history (messages room)) :: rest)
    /\ (forall o, In o rest ->
          forall m, event o <> receive_message m)
    /\ (exists room', JSMap.get pin (rooms st') = Some room'
                      /\ messages room' = messages room).
Proof.
  intros Hlive Hget Hfree.
  assert (E : (JSMap.size (participants room) >=? maxParticipants room) = false)
    by (rewrite Z.geb_leb; now apply Z.leb_gt).
  unfold step. rewrite Hlive. unfold on_join_room. rewrite Hget, E. cbv zeta.
  eexists. eexists. split; [reflexivity|]. split.
  - intros o Hin m. simpl in Hin.
    repeat (destruct Hin as [<-|Hin]; [discriminate|]). destruct Hin.
  - eexists. split; [simpl; apply get_set_eq|reflexivity].
Qed.

(* ===================================================================== *)
(** ** Deletion timers *)
(* ===================================================================== *)

(** When the socket that leaves is the only participant, [leaveCurrentRoom]
    arms a timer of 30000 ms for the pin and keeps the room, with its
    messages, in the registry. *)
Lemma last_leave_arms_timer st sid sk pin room :
  liveSocket sid st = Some sk ->
  truthy (currentRoom sk) = Some pin ->
  JSMap.get pin (rooms st) = Some room ->
  JSMap.size (JSMap.delete sid (participants room)) = 0 ->
  exists st' outs,
    step st (LeaveRoom sid) = Some (st', outs)
    /\ In {| tid := nextTimerId st; owner := sid; tpin := pin;
             delay := 30000; due := now st + 30000 |} (pending st')
    /\ JSMap.get pin (rooms st')
       = Some {| number := number room;
                 participants := JSMap.delete sid (participants room);
                 maxParticipants := maxParticipants room;
                 messages := messages room |}.
Proof.
  intros Hlive Hcur Hget Hempty.
  unfold step. rewrite Hlive. unfold leaveCurrentRoom. rewrite Hcur, Hget.
  cbv zeta. simpl_fields. rewrite Hempty. simpl Z.eqb. cbv iota.
  eexists. eexists. split; [reflexivity|]. simpl_fields. split.
  - apply in_or_app. right. left. reflexivity.
  - apply get_set_eq.
Qed.

(** A timer that fires while the room under its pin is empty removes the
    room: the pin is no longer in the registry nor among the available
    rooms that the turn broadcasts. *)
Lemma timer_removes_empty_room st i tm room :
  findTimer i (pending st) = Some tm ->
  due tm <= now st ->
  JSMap.get (tpin tm) (rooms st) = Some room ->
  JSMap.size (participants room) = 0 ->
  exists st',
    step st (TimerFire i)
    = Some (st', [Emit ToAll (available_rooms (getAvailableRooms (rooms st')))])
    /\ JSMap.has (tpin tm) (rooms st') = false
    /\ ~ In (tpin tm) (List.map ar_pin (getAvailableRooms (rooms st'))).
Proof.
  intros Hfind Hdue Hget Hempty.
  unfold step. rewrite Hfind. apply Z.leb_le in Hdue. rewrite Hdue.
  unfold onTimeout. simpl_fields. rewrite Hget, Hempty. simpl Z.eqb. cbv iota.
  exists {| rooms := JSMap.delete (tpin tm) (rooms st);
            sockets := forgetTimer (owner tm) (tpin tm) (sockets st);
            pending := clearTimeout i (pending st);
            nextTimerId := nextTimerId st;
            now := now st |}.
  split; [reflexivity|]. simpl_fields. split.
  - apply has_false. apply get_delete_eq.
  - unfold getAvailableRooms. rewrite map_map. simpl.
    intros Hin. apply in_map_iff in Hin. destruct Hin as [[k v] [Hk Hin]].
    simpl in Hk. subst k. apply filter_In in Hin. destruct Hin as [Hin _].
    apply (keys_delete_notin (tpin tm) (rooms st)).
    unfold JSMap.keys. apply in_map_iff. exists (tpin tm, v). auto.
Qed.

Lemma findTimer_clearTimeout i ts : findTimer i (clearTimeout i ts) = None.
Proof.
  unfold findTimer, clearTimeout.
  induction ts as [|t ts IH]; simpl; [reflexivity|].
  destruct (tid t =? i) eqn:E; simpl; [assumption|]. now rewrite E.
Qed.

(** A join cancels the timer that the joining connection itself holds for
    the pin. *)
Lemma join_cancels_own_timer st sid sk pin nick room i :
  liveSocket sid st = Some sk ->
  JSMap.get pin (rooms st) = Some room ->
  JSMap.size (participants room) < maxParticipants room ->
  JSMap.get pin (roomTimers sk) = Some i ->
  exists st' outs,
    step st (JoinRoom sid pin nick) = Some (st', outs)
    /\ findTimer i (pending st') = None.
Proof.
  intros Hlive Hget Hfree Htimer.
  assert (E : (JSMap.size (participants room) >=? maxParticipants room) = false)
    by (rewrite Z.geb_leb; now apply Z.leb_gt).
  unfold step. rewrite Hlive. unfold on_join_room. rewrite Hget, E. cbv zeta.
  assert (Hhas : JSMap.has pin (roomTimers sk) = true)
    by (apply has_true; eauto).
  rewrite Hhas. eexists. eexists. split; [reflexivity|]. simpl_fields.
  unfold clearTimerOf. rewrite Htimer. apply findTimer_clearTimeout.
Qed.

(** A turn that is neither a [join_room] for the pin nor a [create_room]
    that returns it leaves an empty room empty. *)
Lemma emptyOrGone_step pin st i st' o :
  emptyOrGone pin st ->
  step st i = Some (st', o) ->
  isJoinOf pin i = false ->
  ~ In pin (createdPins o) ->
  emptyOrGone pin st'.
Proof.
  intros Hinv Hstep Hjoin Hcreate room' Hget.
  step_inv Hstep; simpl in Hjoin, Hcreate; try (now apply Hinv).
  all: get_set_cases Hget; simpl_fields; try (now apply Hinv).
  all: try tauto.
  all: try (rewrite String.eqb_refl in Hjoin; discriminate Hjoin).
  all: try match goal with
       | H : JSMap.get ?p (rooms ?s) = Some ?r
         |- JSMap.size (JSMap.delete ?sid (participants ?r)) = 0 =>
           pose proof (Hinv r H);
           pose proof (size_delete_le sid (participants r));
           pose proof (size_nonneg (JSMap.delete sid (participants r))); lia
       end.
  apply get_delete_Some in Hget. now apply Hinv.
Qed.

Lemma emptyOrGone_run pin tr : forall st st' outs,
  emptyOrGone pin st ->
  forallb (fun i => negb (isJoinOf pin i)) tr = true ->
  run st tr = Some (st', outs) ->
  ~ In pin (createdPins outs) ->
  emptyOrGone pin st'.
Proof.
  induction tr as [|i tr IH]; intros st st' outs Hinv Hnj Hrun Hnc; simpl in *.
  - injection Hrun as <- <-. assumption.
  - apply andb_true_iff in Hnj. destruct Hnj as [Hi Hnj].
    apply negb_true_iff in Hi.
    destruct (step st i) as [[st1 o1]|] eqn:Hstep; [|discriminate].
    destruct (run st1 tr) as [[st2 o2]|] eqn:Hrest; [|discriminate].
    injection Hrun as <- <-. rewrite createdPins_app in Hnc.
    apply (IH st1 st2 o2); auto.
    + eapply emptyOrGone_step; eauto. intros Hin. apply Hnc, in_or_app. auto.
    + intros Hin. apply Hnc, in_or_app. auto.
Qed.

(** A timer only fires once its 30000 ms have elapsed. *)
Lemma timer_fires_when_due st i st' o :
  step st (TimerFire i) = Some (st', o) ->
  exists tm, findTimer i (pending st) = Some tm /\ due tm <= now st.
Proof.
  unfold step. destruct (findTimer i (pending st)) as [tm|]; [|discriminate].
  destruct (due tm <=? now st) eqn:E; [|discriminate].
  intros _. exists tm. split; [reflexivity|now apply Z.leb_le].
Qed.

(** If nobody enters the room under [pin] between the moment it is empty and
    the moment a timer for [pin] fires, the pin is not in the registry after
    the timer has fired. *)
Lemma empty_room_is_gone_after_timer pin st tr st1 o1 i tm st2 o2 :
  emptyOrGone pin st ->
  forallb (fun i => negb (isJoinOf pin i)) tr = true ->
  run st tr = Some (st1, o1) ->
  ~ In pin (createdPins o1) ->
  findTimer i (pending st1) = Some tm ->
  tpin tm = pin ->
  step st1 (TimerFire i) = Some (st2, o2) ->
  JSMap.has pin (rooms st2) = false
  /\ ~ In pin (List.map ar_pin (getAvailableRooms (rooms st2))).
Proof.
  intros Hinv Hnj Hrun Hnc Hfind Hpin Hstep.
  pose proof (emptyOrGone_run pin tr st st1 o1 Hinv Hnj Hrun Hnc) as Hempty.
  destruct (JSMap.get pin (rooms st1)) as [room|] eqn:Hget.
  - destruct (timer_fires_when_due _ _ _ _ Hstep) as (tm' & Hfind' & Hdue).
    assert (tm' = tm) by congruence. subst tm' pin.
    destruct (timer_removes_empty_room st1 i tm room Hfind Hdue Hget
                (Hempty room Hget)) as (st' & Hstep' & Hgone & Hlist).
    rewrite Hstep in Hstep'. injection Hstep' as -> ->. auto.
  - unfold step in Hstep. rewrite Hfind in Hstep.
    destruct (due tm <=? now st1); [|discriminate].
    unfold onTimeout in Hstep. simpl_fields. rewrite Hpin, Hget in Hstep.
    injection Hstep as <- <-. simpl_fields. split.
    + now apply has_false.
    + unfold getAvailableRooms. rewrite map_map. simpl.
      intros Hin. apply in_map_iff in Hin. destruct Hin as [[k v] [Hk Hin]].
      simpl in Hk. subst k. apply filter_In in Hin. destruct Hin as [Hin _].
      assert (Hkey : In pin (JSMap.keys (rooms st1)))
        by (unfold JSMap.keys; apply in_map_iff; exists (pin, v); auto).
      apply keys_In_get in Hkey. destruct Hkey as [w Hw]. congruence.
Qed.

(* ===================================================================== *)
(** ** Timers of one connection *)
(* ===================================================================== *)

Lemma roomTimersIn_set o sid sk ss :
  roomTimersIn o (JSMap.set sid sk ss)
  = if String.eqb sid o then roomTimers sk else roomTimersIn o ss.
Proof. unfold roomTimersIn. rewrite get_set. now destruct (String.eqb sid o). Qed.

Lemma liveSocket_roomTimers sid st sk :
  liveSocket sid st = Some sk -> roomTimersIn sid (sockets st) = roomTimers sk.
Proof.
  unfold liveSocket, roomTimersIn.
  destruct (JSMap.get sid (sockets st)) as [s|]; [|discriminate].
  destruct (connected s); [|discriminate]. now intros [= ->].
Qed.

Lemma In_clearTimeout t i ts :
  In t (clearTimeout i ts) <-> In t ts /\ tid t <> i.
Proof.
  unfold clearTimeout. rewrite filter_In, negb_true_iff, Z.eqb_neq. tauto.
Qed.

Lemma In_clearTimerOf t pin rt ts :
  In t (clearTimerOf pin rt ts) ->
  In t ts /\ JSMap.get pin rt <> Some (tid t).
Proof.
  unfold clearTimerOf. destruct (JSMap.get pin rt) as [i|].
  - rewrite In_clearTimeout. intros [Hin Hne]. split; [assumption|congruence].
  - intros Hin. split; [assumption|discriminate].
Qed.

Lemma NoDup_tid_filter (f : Timer -> bool) ts :
  NoDup (List.map tid ts) -> NoDup (List.map tid (List.filter f ts)).
Proof.
  induction ts as [|t ts IH]; simpl; [auto|].
  intros Hnd. inversion Hnd as [|? ? Hnotin Hnd']; subst.
  destruct (f t); simpl; [|auto].
  constructor; [|auto].
  intros Hin. apply Hnotin. apply in_map_iff in Hin.
  destruct Hin as [t' [Ht' Hin]]. apply filter_In in Hin.
  apply in_map_iff. exists t'. tauto.
Qed.

Lemma clearTimerOf_absent pin rt ts :
  JSMap.has pin rt = false -> clearTimerOf pin rt ts = ts.
Proof. intros H. apply has_false in H. unfold clearTimerOf. now rewrite H. Qed.

Lemma delete_absent {V} k (m : list (string * V)) :
  JSMap.has k m = false -> JSMap.delete k m = m.
Proof.
  intros H. apply has_false in H.
  induction m as [|[k' v'] m IH]; simpl in *; [reflexivity|].
  destruct (String.eqb k k'); [discriminate|]. now rewrite IH.
Qed.

(** A socket record is replaced by one with the same [roomTimers]. *)
Lemma tracked_same ss ts n sid sk1 :
  tracked ss ts n ->
  roomTimers sk1 = roomTimersIn sid ss ->
  tracked (JSMap.set sid sk1 ss) ts n.
Proof.
  intros [Htrack Hnd] Hrt. split; [|assumption].
  intros t Hin. destruct (Htrack t Hin) as [Hlt Hget]. split; [assumption|].
  rewrite roomTimersIn_set. destruct (String.eqb sid (owner t)) eqn:E; [|assumption].
  apply String.eqb_eq in E. subst sid. now rewrite Hrt.
Qed.

(** [create_room] and [join_room]: the connection's timer for the pin is
    cleared and forgotten. *)
Lemma tracked_cancel ss ts n sid sk1 pin :
  tracked ss ts n ->
  roomTimers sk1 = JSMap.delete pin (roomTimersIn sid ss) ->
  tracked (JSMap.set sid sk1 ss) (clearTimerOf pin (roomTimersIn sid ss) ts) n.
Proof.
  intros [Htrack Hnd] Hrt. split.
  - intros t Hin. apply In_clearTimerOf in Hin. destruct Hin as [Hin Hne].
    destruct (Htrack t Hin) as [Hlt Hget]. split; [assumption|].
    rewrite roomTimersIn_set. destruct (String.eqb sid (owner t)) eqn:E; [|assumption].
    apply String.eqb_eq in E. subst sid. rewrite Hrt.
    rewrite get_delete_ne; [assumption|]. intros ->. contradiction.
  - unfold clearTimerOf. destruct (JSMap.get pin (roomTimersIn sid ss)); [|assumption].
    now apply NoDup_tid_filter.
Qed.

(** [leaveCurrentRoom] on the last participant: the connection's old timer
    for the pin is cleared, a new one is armed and recorded. *)
Lemma tracked_arm ss ts n sid sk1 pin d :
  tracked ss ts n ->
  roomTimers sk1 = JSMap.set pin n (roomTimersIn sid ss) ->
  tracked (JSMap.set sid sk1 ss)
    (clearTimerOf pin (roomTimersIn sid ss) ts
     ++ [{| tid := n; owner := sid; tpin := pin; delay := graceMillis; due := d |}])
    (n + 1).
Proof.
  intros [Htrack Hnd] Hrt. split.
  - intros t Hin. apply in_app_or in Hin. destruct Hin as [Hin|[<-|[]]].
    + apply In_clearTimerOf in Hin. destruct Hin as [Hin Hne].
      destruct (Htrack t Hin) as [Hlt Hget]. split; [lia|].
      rewrite roomTimersIn_set.
      destruct (String.eqb sid (owner t)) eqn:E; [|assumption].
      apply String.eqb_eq in E. subst sid. rewrite Hrt.
      rewrite get_set_ne; [assumption|]. intros ->. contradiction.
    + simpl. split; [lia|]. rewrite roomTimersIn_set, String.eqb_refl, Hrt.
      apply get_set_eq.
  - rewrite map_app. simpl. apply NoDup_app.
    + unfold clearTimerOf.
      destruct (JSMap.get pin (roomTimersIn sid ss)); [|assumption].
      now apply NoDup_tid_filter.
    + repeat constructor. simpl. tauto.
    + intros x Hx [<-|[]]. apply in_map_iff in Hx.
      destruct Hx as [t [Ht Hin]]. apply In_clearTimerOf in Hin.
      destruct Hin as [Hin _]. destruct (Htrack t Hin) as [Hlt _]. lia.
Qed.

Lemma findTimer_In i ts tm : findTimer i ts = Some tm -> In tm ts /\ tid tm = i.
Proof.
  unfold findTimer. intros H. apply find_some in H.
  destruct H as [Hin Heq]. now apply Z.eqb_eq in Heq.
Qed.

(** A timer that fires leaves the pending list; when it deletes the room it
    also drops its entry from its connection's [roomTimers]. *)
Lemma tracked_fire ss ts n i :
  tracked ss ts n -> tracked ss (clearTimeout i ts) n.
Proof.
  intros [Htrack Hnd]. split.
  - intros t Hin. apply In_clearTimeout in Hin. now apply Htrack.
  - now apply NoDup_tid_filter.
Qed.

Lemma tracked_fire_forget ss ts n i tm :
  tracked ss ts n ->
  findTimer i ts = Some tm ->
  tracked (forgetTimer (owner tm) (tpin tm) ss) (clearTimeout i ts) n.
Proof.
  intros [Htrack Hnd] Hfind. apply findTimer_In in Hfind.
  destruct Hfind as [Htm Hid]. split.
  - intros t Hin. apply In_clearTimeout in Hin. destruct Hin as [Hin Hne].
    destruct (Htrack t Hin) as [Hlt Hget]. split; [assumption|].
    unfold forgetTimer.
    destruct (JSMap.get (owner tm) ss) as [sk|] eqn:Hown; [|assumption].
    rewrite roomTimersIn_set.
    destruct (String.eqb (owner tm) (owner t)) eqn:E; [|assumption].
    apply String.eqb_eq in E. simpl.
    assert (Hrt : roomTimersIn (owner t) ss = roomTimers sk)
      by (unfold roomTimersIn; now rewrite <- E, Hown).
    rewrite Hrt in Hget. rewrite get_delete_ne; [assumption|].
    intros Hpin. destruct (Htrack tm Htm) as [_ Hget'].
    rewrite E, Hrt, Hpin, Hget in Hget'. congruence.
  - now apply NoDup_tid_filter.
Qed.

Lemma set_set {V} k (v v0 : V) m :
  JSMap.set k v (JSMap.set k v0 m) = JSMap.set k v m.
Proof.
  induction m as [|[k' v'] m IH]; simpl.
  - now rewrite String.eqb_refl.
  - destruct (String.eqb k k') eqn:E; simpl.
    + now rewrite String.eqb_refl.
    + now rewrite E, IH.
Qed.

Lemma roomTimersIn_absent sid ss :
  JSMap.has sid ss = false -> roomTimersIn sid ss = JSMap.empty.
Proof. intros H. apply has_false in H. unfold roomTimersIn. now rewrite H. Qed.

Lemma timersTracked_step st i st' o :
  timersTracked st -> step st i = Some (st', o) -> timersTracked st'.
Proof.
  unfold timersTracked. intros Htr Hstep.
  step_inv Hstep; try assumption.
  all: try rewrite set_set.
  all: repeat match goal with
       | H : liveSocket _ _ = Some _ |- _ =>
           apply liveSocket_roomTimers in H; rewrite <- H in *; clear H
       end.
  all: try match goal with
       | Hf : JSMap.has ?pin ?rt = false
         |- tracked _ (pending ?s ++ _) _ =>
           rewrite <- (clearTimerOf_absent pin rt (pending s) Hf)
       end.
  all: try (apply tracked_arm; [assumption|reflexivity]).
  all: try (apply tracked_cancel; [assumption|reflexivity]).
  all: try (apply tracked_same; [assumption|reflexivity]).
  all: try (apply tracked_fire_forget; assumption).
  all: try (apply tracked_fire; assumption).
  apply tracked_same; [assumption|].
  symmetry. now apply roomTimersIn_absent.
Qed.

Lemma timersTracked_run tr st outs :
  run init tr = Some (st, outs) -> timersTracked st.
Proof.
  apply (run_invariant timersTracked init).
  - split; [intros t []|constructor].
  - intros; eapply timersTracked_step; eauto.
Qed.

Lemma same_tid_same_timer ts t1 t2 :
  NoDup (List.map tid ts) -> In t1 ts -> In t2 ts -> tid t1 = tid t2 -> t1 = t2.
Proof.
  induction ts as [|t ts IH]; simpl; [tauto|].
  intros Hnd H1 H2 Heq. inversion Hnd as [|? ? Hnotin Hnd']; subst.
  destruct H1 as [<-|H1], H2 as [<-|H2]; auto.
  - exfalso. apply Hnotin. rewrite Heq. now apply in_map.
  - exfalso. apply Hnotin. rewrite <- Heq. now apply in_map.
Qed.

(** What the code does guarantee: in every state the server can reach, one
    connection never holds two pending timers for the same pin. *)
Lemma one_timer_per_pin_per_connection tr st outs t1 t2 :
  run init tr = Some (st, outs) ->
  In t1 (pending st) -> In t2 (pending st) ->
  owner t1 = owner t2 -> tpin t1 = tpin t2 ->
  t1 = t2.
Proof.
  intros Hrun H1 H2 Hown Hpin.
  destruct (timersTracked_run tr st outs Hrun) as [Htrack Hnd].
  apply (same_tid_same_timer (pending st)); auto.
  destruct (Htrack t1 H1) as [_ G1]. destruct (Htrack t2 H2) as [_ G2].
  rewrite Hown, Hpin in G1. congruence.
Qed.

(* ===================================================================== *)
(** ** Socket.IO rooms and participant maps *)
(* ===================================================================== *)

Lemma has_set {V} k k' (v : V) m :
  JSMap.has k' (JSMap.set k v m) = String.eqb k k' || JSMap.has k' m.
Proof. unfold JSMap.has. rewrite get_set. now destruct (String.eqb k k'). Qed.

Lemma has_delete {V} k k' (m : list (string * V)) :
  JSMap.has k' (JSMap.delete k m) = negb (String.eqb k k') && JSMap.has k' m.
Proof.
  unfold JSMap.has. destruct (String.eqb k k') eqn:E.
  - apply String.eqb_eq in E. subst. now rewrite get_delete_eq.
  - apply String.eqb_neq in E. now rewrite get_delete_ne.
Qed.

Lemma size_zero_has {V} k (m : list (string * V)) :
  JSMap.size m = 0 -> JSMap.has k m = false.
Proof. destruct m; [reflexivity|]. unfold JSMap.size. simpl. lia. Qed.

Lemma existsb_sio_join q p js :
  existsb (String.eqb q) (sio_join p js)
  = String.eqb q p || existsb (String.eqb q) js.
Proof.
  unfold sio_join. destruct (existsb (String.eqb p) js) eqn:E.
  - destruct (String.eqb q p) eqn:Eq; [|reflexivity].
    apply String.eqb_eq in Eq. subst. now rewrite E.
  - rewrite existsb_app. simpl. rewrite orb_false_r. apply orb_comm.
Qed.

Lemma existsb_sio_leave q p js :
  existsb (String.eqb q) (sio_leave p js)
  = negb (String.eqb q p) && existsb (String.eqb q) js.
Proof.
  unfold sio_leave. induction js as [|j js IH]; simpl.
  - now rewrite andb_false_r.
  - destruct (String.eqb p j) eqn:E; simpl.
    + apply String.eqb_eq in E. subst j. rewrite IH.
      destruct (String.eqb q p); reflexivity.
    + rewrite IH. destruct (String.eqb q j) eqn:Eq; simpl.
      * apply String.eqb_eq in Eq. subst j.
        rewrite String.eqb_sym, E. reflexivity.
      * reflexivity.
Qed.

Lemma inRoom_set sid q p room rs :
  inRoom sid q (JSMap.set p room rs)
  = if String.eqb p q then JSMap.has sid (participants room) else inRoom sid q rs.
Proof. unfold inRoom. rewrite get_set. now destruct (String.eqb p q). Qed.

Lemma inRoom_delete sid q p rs :
  inRoom sid q (JSMap.delete p rs)
  = negb (String.eqb p q) && inRoom sid q rs.
Proof.
  unfold inRoom. destruct (String.eqb p q) eqn:E.
  - apply String.eqb_eq in E. subst. now rewrite get_delete_eq.
  - apply String.eqb_neq in E. now rewrite get_delete_ne.
Qed.

Lemma inRoom_get sid pin rs room :
  JSMap.get pin rs = Some room ->
  inRoom sid pin rs = JSMap.has sid (participants room).
Proof. unfold inRoom. now intros ->. Qed.

Lemma inRoom_absent sid pin rs :
  JSMap.has pin rs = false -> inRoom sid pin rs = false.
Proof. intros H. apply has_false in H. unfold inRoom. now rewrite H. Qed.

Lemma liveSocket_get sid st sk :
  liveSocket sid st = Some sk ->
  JSMap.get sid (sockets st) = Some sk /\ connected sk = true.
Proof.
  unfold liveSocket. destruct (JSMap.get sid (sockets st)) as [s|]; [|discriminate].
  destruct (connected s) eqn:E; [|discriminate]. intros [= <-]. auto.
Qed.

Lemma forgetTimer_get o p ss sid sk' :
  JSMap.get sid (forgetTimer o p ss) = Some sk' ->
  exists sk, JSMap.get sid ss = Some sk
             /\ joined sk' = joined sk /\ connected sk' = connected sk.
Proof.
  unfold forgetTimer. destruct (JSMap.get o ss) as [s|] eqn:E; [|eauto].
  rewrite get_set. destruct (String.eqb o sid) eqn:Eo; [|eauto].
  apply String.eqb_eq in Eo. subst o. intros [= <-]. eauto.
Qed.

Lemma forgetTimer_keys o p ss :
  JSMap.keys (forgetTimer o p ss) = JSMap.keys ss.
Proof.
  unfold forgetTimer. destruct (JSMap.get o ss) as [s|] eqn:E; [|reflexivity].
  now apply keys_set_present with s.
Qed.

Lemma forgetTimer_has o p ss sid :
  JSMap.has sid (forgetTimer o p ss) = JSMap.has sid ss.
Proof.
  unfold forgetTimer. destruct (JSMap.get o ss) as [s|] eqn:E; [|reflexivity].
  rewrite has_set. destruct (String.eqb o sid) eqn:Eo; [|reflexivity].
  apply String.eqb_eq in Eo. subst o. symmetry. apply has_true. eauto.
Qed.

Lemma mirrors_connect ss rs sid :
  mirrors ss rs -> JSMap.has sid ss = false ->
  mirrors (JSMap.set sid newSocket ss) rs.
Proof.
  intros (Hnd & HJ & HK) Hfresh. split; [now apply NoDup_keys_set|split].
  - intros x sk pin. rewrite get_set.
    destruct (String.eqb sid x) eqn:E; [|apply HJ].
    apply String.eqb_eq in E. subst x. intros [= <-]. simpl.
    destruct (inRoom sid pin rs) eqn:Hin; [|reflexivity].
    apply HK in Hin. congruence.
  - intros x pin Hin. rewrite has_set. rewrite (HK x pin Hin). apply orb_true_r.
Qed.

(** [create_room] and [join_room]: the socket enters the Socket.IO room and
    the participant map of the same pin. *)
Lemma mirrors_enter ss rs sid s sk1 pin room1 :
  mirrors ss rs ->
  JSMap.get sid ss = Some s ->
  connected s = true ->
  connected sk1 = true ->
  joined sk1 = sio_join pin (joined s) ->
  (forall x, JSMap.has x (participants room1)
             = String.eqb x sid || inRoom x pin rs) ->
  mirrors (JSMap.set sid sk1 ss) (JSMap.set pin room1 rs).
Proof.
  intros (Hnd & HJ & HK) Hs Hconn Hconn1 Hjoined Hparts.
  split; [now apply NoDup_keys_set|split].
  - intros x sk q. rewrite get_set, inRoom_set.
    destruct (String.eqb sid x) eqn:E.
    + apply String.eqb_eq in E. subst x. intros [= <-].
      rewrite Hjoined, existsb_sio_join, Hconn1, (HJ sid s q Hs), Hconn. simpl.
      rewrite (String.eqb_sym pin q).
      destruct (String.eqb q pin) eqn:Eq; [|reflexivity].
      now rewrite Hparts, String.eqb_refl.
    + intros Hx. rewrite (HJ x sk q Hx).
      destruct (String.eqb pin q) eqn:Eq; [|reflexivity].
      apply String.eqb_eq in Eq. subst q.
      now rewrite Hparts, String.eqb_sym, E.
  - intros x q. rewrite inRoom_set, has_set.
    destruct (String.eqb pin q) eqn:Eq.
    + rewrite Hparts, (String.eqb_sym x sid).
      destruct (String.eqb sid x); [reflexivity|]. simpl. intros Hin.
      now apply HK in Hin.
    + intros Hin. rewrite (HK x q Hin). apply orb_true_r.
Qed.

(** [leaveCurrentRoom]: the socket leaves the Socket.IO room (or, on
    disconnect, every room) and the participant map of the pin. *)
Lemma mirrors_exit ss rs sid s sk1 pin room1 :
  mirrors ss rs ->
  JSMap.get sid ss = Some s ->
  (connected sk1 = connected s /\ joined sk1 = sio_leave pin (joined s))
  \/ (connected sk1 = false /\ joined sk1 = []) ->
  (forall x, JSMap.has x (participants room1)
             = negb (String.eqb x sid) && inRoom x pin rs) ->
  mirrors (JSMap.set sid sk1 ss) (JSMap.set pin room1 rs).
Proof.
  intros (Hnd & HJ & HK) Hs Hsk Hparts.
  split; [now apply NoDup_keys_set|split].
  - intros x sk q. rewrite get_set, inRoom_set.
    destruct (String.eqb sid x) eqn:E.
    + apply String.eqb_eq in E. subst x. intros [= <-].
      destruct Hsk as [[Hc Hj]|[Hc Hj]]; rewrite Hc, Hj; [|reflexivity].
      rewrite existsb_sio_leave, (HJ sid s q Hs), (String.eqb_sym pin q).
      destruct (String.eqb q pin) eqn:Eq; simpl; [|reflexivity].
      rewrite Hparts, String.eqb_refl. simpl. now rewrite andb_false_r.
    + intros Hx. rewrite (HJ x sk q Hx).
      destruct (String.eqb pin q) eqn:Eq; [|reflexivity].
      apply String.eqb_eq in Eq. subst q.
      now rewrite Hparts, String.eqb_sym, E.
  - intros x q. rewrite inRoom_set, has_set.
    destruct (String.eqb pin q) eqn:Eq.
    + apply String.eqb_eq in Eq. subst q. rewrite Hparts. intros Hin.
      apply andb_true_iff in Hin. destruct Hin as [_ Hin].
      rewrite (HK x pin Hin). apply orb_true_r.
    + intros Hin. rewrite (HK x q Hin). apply orb_true_r.
Qed.

(** A socket record replaced without touching the registry: either its
    Socket.IO rooms are kept, or it is disconnected and has left them all. *)
Lemma mirrors_socket ss rs sid s sk1 :
  mirrors ss rs ->
  JSMap.get sid ss = Some s ->
  (connected sk1 = connected s /\ joined sk1 = joined s)
  \/ (connected sk1 = false /\ joined sk1 = []) ->
  mirrors (JSMap.set sid sk1 ss) rs.
Proof.
  intros (Hnd & HJ & HK) Hs Hsk.
  split; [now apply NoDup_keys_set|split].
  - intros x sk q. rewrite get_set.
    destruct (String.eqb sid x) eqn:E; [|apply HJ].
    apply String.eqb_eq in E. subst x. intros [= <-].
    destruct Hsk as [[Hc Hj]|[Hc Hj]]; rewrite Hc, Hj; [|reflexivity].
    now apply HJ.
  - intros x q Hin. rewrite has_set, (HK x q Hin). apply orb_true_r.
Qed.

(** [send_message]: the room object changes, its participant map does not. *)
Lemma mirrors_push ss rs pin r room1 :
  mirrors ss rs ->
  JSMap.get pin rs = Some r ->
  participants room1 = participants r ->
  mirrors ss (JSMap.set pin room1 rs).
Proof.
  intros (Hnd & HJ & HK) Hr Hparts.
  assert (Hsame : forall x q, inRoom x q (JSMap.set pin room1 rs) = inRoom x q rs).
  { intros x q. rewrite inRoom_set. destruct (String.eqb pin q) eqn:E; [|reflexivity].
    apply String.eqb_eq in E. subst q. now rewrite (inRoom_get x pin rs r Hr), Hparts. }
  split; [assumption|split].
  - intros x sk q Hx. rewrite Hsame. now apply HJ.
  - intros x q. rewrite Hsame. apply HK.
Qed.

(** The timer callback deletes a room that has no participant. *)
Lemma mirrors_timer ss rs o pin r :
  mirrors ss rs ->
  JSMap.get pin rs = Some r ->
  JSMap.size (participants r) = 0 ->
  mirrors (forgetTimer o pin ss) (JSMap.delete pin rs).
Proof.
  intros (Hnd & HJ & HK) Hr Hempty.
  assert (Hsame : forall x q, inRoom x q (JSMap.delete pin rs) = inRoom x q rs).
  { intros x q. rewrite inRoom_delete. destruct (String.eqb pin q) eqn:E; [|reflexivity].
    apply String.eqb_eq in E. subst q. simpl.
    rewrite (inRoom_get x pin rs r Hr). symmetry. now apply size_zero_has. }
  split; [now rewrite forgetTimer_keys|split].
  - intros x sk q Hx. apply forgetTimer_get in Hx.
    destruct Hx as (sk0 & Hx & Hj & Hc). rewrite Hsame, Hj, Hc. now apply HJ.
  - intros x q. rewrite Hsame, forgetTimer_has. apply HK.
Qed.

Lemma sioMatches_step st i st' o :
  sioMatches st -> step st i = Some (st', o) -> sioMatches st'.
Proof.
  unfold sioMatches. intros Hm Hstep.
  step_inv Hstep; try assumption.
  all: repeat match goal with
       | H : liveSocket _ _ = Some _ |- _ =>
           apply liveSocket_get in H; destruct H as [? ?]
       | H : generateUniquePin _ _ = Some _ |- _ =>
           apply generateUniquePin_sound in H; destruct H as [? _]
       end.
  all: try rewrite !set_set.
  all: try match goal with
       | H : (_ =? 0) = true |- _ => apply Z.eqb_eq in H
       end.
  all: try (apply mirrors_connect; assumption).
  all: try (eapply mirrors_push; [eassumption|eassumption|reflexivity]).
  all: try (eapply mirrors_timer; eassumption).
  all: try (eapply mirrors_socket; [eassumption|eassumption|];
            right; split; reflexivity).
  all: try (eapply mirrors_enter;
            [eassumption|eassumption|assumption|simpl; assumption|reflexivity|];
            intros x; simpl participants;
            first [ rewrite has_set, (String.eqb_sym sid x);
                    erewrite inRoom_get by eassumption; reflexivity
                  | rewrite inRoom_absent by assumption;
                    unfold JSMap.has; simpl;
                    destruct (String.eqb x sid); reflexivity ]).
  all: try (eapply mirrors_exit;
            [eassumption|eassumption| |];
            [first [left; split; reflexivity | right; split; reflexivity]
            |intros x; simpl participants;
             rewrite has_delete, (String.eqb_sym sid x);
             erewrite inRoom_get by eassumption; reflexivity]).
Qed.

Lemma sioMatches_run tr st outs : run init tr = Some (st, outs) -> sioMatches st.
Proof.
  apply (run_invariant sioMatches init).
  - split; [constructor|split].
    + intros sid sk pin H. discriminate H.
    + intros sid pin H. discriminate H.
  - intros; eapply sioMatches_step; eauto.
Qed.

Lemma NoDup_keys_In_get {V} k (v : V) m :
  NoDup (JSMap.keys m) -> In (k, v) m -> JSMap.get k m = Some v.
Proof.
  induction m as [|[k' v'] m IH]; simpl; [tauto|].
  intros Hnd Hin. inversion Hnd as [|? ? Hnotin Hnd']; subst.
  destruct Hin as [[= -> ->]|Hin].
  - now rewrite String.eqb_refl.
  - destruct (String.eqb k k') eqn:E; [|auto].
    apply String.eqb_eq in E. subst k'. exfalso. apply Hnotin.
    unfold JSMap.keys. apply in_map_iff. exists (k, v). auto.
Qed.

(** In every state the server can reach, an emit to the Socket.IO room of a
    pin reaches exactly the connected sockets found in the participant map
    of the room under that pin. *)
Lemma deliver_to_room tr st outs pin :
  run init tr = Some (st, outs) ->
  deliver st (ToRoom pin) = connectedParticipants pin st.
Proof.
  intros Hrun. destruct (sioMatches_run tr st outs Hrun) as (Hnd & HJ & _).
  unfold deliver, connectedParticipants. f_equal.
  apply filter_ext_in. intros [sid sk] Hin. simpl.
  pose proof (NoDup_keys_In_get sid sk (sockets st) Hnd Hin) as Hget.
  rewrite (HJ sid sk pin Hget). destruct (connected sk); reflexivity.
Qed.

(* ===================================================================== *)
(** * The specified properties *)
(* ===================================================================== *)




(** C2. In a run in which no deletion timer fires (in particular in any
    sequence of [create_room] calls) the pins announced by [room_created]
    are pairwise distinct and none of them was in the registry at the start;
    the pin allocated by a [create_room] is not the pin of any room in the
    registry at that moment and names the new room afterwards; no two rooms
    of a reachable registry share a pin; and as long as the room under a pin
    stays in the registry, no [create_room] returns that pin. *)
Theorem created_pins_are_distinct_from_live_pins :
  (forall tr st st' outs,
      forallb (fun i => negb (isTimerFire i)) tr = true ->
      run st tr = Some (st', outs) ->
      NoDup (createdPins outs)
      /\ forall p, In p (createdPins outs) -> JSMap.has p (rooms st) = false)
  /\ (forall st sid maxP roomNumber nick draws st' outs,
        step st (CreateRoom sid maxP roomNumber nick draws) = Some (st', outs) ->
        exists pin,
          createdPins outs = [pin]
          /\ JSMap.has pin (rooms st) = false
          /\ JSMap.has pin (rooms st') = true)
  /\ (forall tr st outs,
        run init tr = Some (st, outs) -> NoDup (JSMap.keys (rooms st)))
  /\ (forall tr pin st st' outs,
        JSMap.has pin (rooms st) = true ->
        livesThrough pin st tr = true ->
        run st tr = Some (st', outs) ->
        ~ In pin (createdPins outs)).
Proof.
  split; [|split; [|split]].
  - induction tr as [|i tr IH]; intros st st' outs Hnt Hrun; simpl in *.
    + injection Hrun as <- <-. split; [constructor|intros p []].
    + apply andb_true_iff in Hnt. destruct Hnt as [Hi Hnt].
      apply negb_true_iff in Hi.
      destruct (step st i) as [[st1 o1]|] eqn:Hstep; [|discriminate].
      destruct (run st1 tr) as [[st2 o2]|] eqn:Hrest; [|discriminate].
      injection Hrun as <- <-.
      destruct (IH st1 st2 o2 Hnt Hrest) as [Hnd Hfresh].
      assert (Hold : forall p, In p (createdPins o2) ->
                               JSMap.has p (rooms st) = false).
      { intros p Hin. specialize (Hfresh p Hin).
        destruct (JSMap.has p (rooms st)) eqn:E; [|reflexivity].
        rewrite (step_rooms_mono _ _ _ _ p Hstep Hi E) in Hfresh. discriminate. }
      rewrite createdPins_app.
      destruct (step_createdPins _ _ _ _ Hstep) as [->|(pin & -> & Hfree & Hin)].
      * simpl. auto.
      * simpl. split.
        -- constructor; [|assumption].
           intros Hdup. apply Hfresh in Hdup. congruence.
        -- intros p [<-|Hp]; auto.
  - intros st sid maxP roomNumber nick draws st' outs Hstep.
    destruct (create_room_allocates _ _ _ _ _ _ _ _ Hstep)
      as (pin & Hout & Hfree & Hget).
    exists pin. repeat split; auto. apply has_true. eauto.
  - intros tr st outs. apply (run_invariant (fun s => NoDup (JSMap.keys (rooms s))) init).
    + constructor.
    + intros; eapply NoDup_keys_step; eauto.
  - induction tr as [|i tr IH]; intros pin st st' outs Hhas Hlive Hrun; simpl in *.
    + injection Hrun as <- <-. intros [].
    + destruct (step st i) as [[st1 o1]|] eqn:Hstep; [|discriminate].
      destruct (run st1 tr) as [[st2 o2]|] eqn:Hrest; [|discriminate].
      injection Hrun as <- <-.
      apply andb_true_iff in Hlive. destruct Hlive as [Hhas1 Hlive].
      rewrite createdPins_app. intros Hin. apply in_app_or in Hin.
      destruct Hin as [Hin|Hin].
      * destruct (step_createdPins _ _ _ _ Hstep) as [E|(q & E & Hfree & _)];
          rewrite E in Hin; simpl in Hin; [tauto|].
        destruct Hin as [->|[]]. congruence.
      * revert Hin. eapply IH; eauto.
Qed.

Lemma created_pins_are_distinct_from_live_pins_witness :
  (NoDup ["100000"; "550000"] /\ NoDup (JSMap.keys (rooms (stateAfter bobJoins))))
  /\ (exists pin,
        createdPins
          (snd (runFrom (stateAfter bobJoins)
                  [CreateRoom "c" None None "carol" [0 # 1; 1 # 2]])) = [pin]
        /\ JSMap.has pin (rooms (stateAfter bobJoins)) = false
        /\ JSMap.has pin
             (rooms (fst (runFrom (stateAfter bobJoins)
                            [CreateRoom "c" None None "carol" [0 # 1; 1 # 2]])))
           = true)
  /\ ~ In "100000"
         (createdPins
            (snd (runFrom (stateAfter aliceCreates)
                    [Connect "b"; CreateRoom "b" None None "bob" [0 # 1; 1 # 2]]))).
Proof.
  destruct created_pins_are_distinct_from_live_pins
    as (Hseq & Hnew & Hkeys & Hlive).
  split; [split|split].
  - apply (Hseq [Connect "a"; CreateRoom "a" (Some 2) (Some "7") "alice" [0 # 1];
                 Connect "b"; CreateRoom "b" None None "bob" [0 # 1; 1 # 2]]
             init
             (stateAfter (aliceCreates
                ++ [Connect "b"; CreateRoom "b" None None "bob" [0 # 1; 1 # 2]]))
             (outputsAfter (aliceCreates
                ++ [Connect "b"; CreateRoom "b" None None "bob" [0 # 1; 1 # 2]])));
      reflexivity.
  - apply (Hkeys bobJoins (stateAfter bobJoins) (outputsAfter bobJoins)).
    reflexivity.
  - apply (Hnew (stateAfter bobJoins) "c" None None "carol" [0 # 1; 1 # 2]).
    reflexivity.
  - apply (Hlive [Connect "b"; CreateRoom "b" None None "bob" [0 # 1; 1 # 2]]
             "100000" (stateAfter aliceCreates)
             (fst (runFrom (stateAfter aliceCreates)
                     [Connect "b"; CreateRoom "b" None None "bob" [0 # 1; 1 # 2]])));
      reflexivity.
Defined.

(** C3, the code at the failing input. Alice empties room 100000 at time 0
    and her connection arms timer 1, due at 30000. Bob joins from another
    connection at 10000: the room and its history are intact, but timer 1 is
    still pending. Bob leaves at 20000 and his connection arms timer 2, due at
    50000. Timer 1 fires at 30000 and deletes the room, so Carol's join at
    35000, before timer 2 is due, is answered with room-not-found. *)
Theorem join_from_other_connection_does_not_cancel_timer :
  (exists room,
      JSMap.get "100000" (rooms (stateAfter bobRejoins)) = Some room
      /\ messages room = [hola]
      /\ participants room = [("b", "bob")])
  /\ timersFor "100000" (stateAfter bobRejoins)
     = [{| tid := 1; owner := "a"; tpin := "100000";
           delay := 30000; due := 30000 |}]
  /\ run init carolTooLate
     = Some (stateAfter carolTooLate, outputsAfter carolTooLate)
  /\ now (stateAfter carolTooLate) = 35000
  /\ timersFor "100000" (stateAfter carolTooLate)
     = [{| tid := 2; owner := "b"; tpin := "100000";
           delay := 30000; due := 50000 |}]
  /\ JSMap.has "100000" (rooms (stateAfter carolTooLate)) = false
  /\ List.last (outputsAfter carolTooLate) (Emit ToAll host_info)
     = Emit (ToSocket "c") (join_error msgNotFound).
Proof.
  split; [eexists; repeat split; reflexivity|].
  repeat split; vm_compute; reflexivity.
Qed.

(** C4, the code at the failing input. After Alice and then Bob have each
    emptied room 100000 from their own connection, two timers for that pin
    are pending at the same time, one in each connection's [roomTimers]. *)
Theorem two_connections_hold_two_timers_for_one_pin :
  run init bobLeaves = Some (stateAfter bobLeaves, outputsAfter bobLeaves)
  /\ timersFor "100000" (stateAfter bobLeaves)
     = [{| tid := 1; owner := "a"; tpin := "100000";
           delay := 30000; due := 30000 |};
        {| tid := 2; owner := "b"; tpin := "100000";
           delay := 30000; due := 50000 |}]
  /\ now (stateAfter bobLeaves) = 20000
  /\ JSMap.get "100000" (roomTimers_of "a" (stateAfter bobLeaves)) = Some 1
  /\ JSMap.get "100000" (roomTimers_of "b" (stateAfter bobLeaves)) = Some 2.
Proof.
  repeat split; vm_compute; reflexivity.
Qed.

(** C5. A [send_message] accepted for a room pushes the message at the
    end of that room's log and emits exactly one [receive_message] with it,
    so log and broadcasts grow in the order the messages arrive; in every
    state the server can reach, the log of each room is the sequence of
    messages broadcast to its pin since the room was created, in that order;
    and a successful [join_room] first sends the requester a [room_history]
    that carries exactly this sequence, and leaves the log as it is. *)
Theorem message_order_is_preserved tr st outs :
  run init tr = Some (st, outs) ->
  (forall sid sk msg pin room,
      liveSocket sid st = Some sk ->
      currentRoom sk = Some pin ->
      JSMap.get pin (rooms st) = Some room ->
      exists st' room',
        step st (SendMessage sid msg)
        = Some (st', [Emit (ToRoom pin) (receive_message msg)])
        /\ JSMap.get pin (rooms st') = Some room'
        /\ messages room' = messages room ++ [msg]
        /\ roomLog pin (outs ++ [Emit (ToRoom pin) (receive_message msg)])
           = roomLog pin outs ++ [msg])
  /\ (forall pin room,
        JSMap.get pin (rooms st) = Some room ->
        messages room = roomLog pin outs)
  /\ (forall sid sk pin nick room,
        liveSocket sid st = Some sk ->
        JSMap.get pin (rooms st) = Some room ->
        JSMap.size (participants room) < maxParticipants room ->
        exists st' rest room',
          step st (JoinRoom sid pin nick)
          = Some (st', Emit (ToSocket sid) (room_history (roomLog pin outs)) :: rest)
          /\ JSMap.get pin (rooms st') = Some room'
          /\ messages room' = roomLog pin outs).
Proof.
  intros Hrun. pose proof (logsMatch_run tr st outs Hrun) as Hlog.
  split; [|split].
  - intros sid sk msg pin room Hlive Hcur Hget.
    assert (Htruthy : truthy (currentRoom sk) = Some pin).
    { rewrite Hcur. apply truthy_goodPin.
      eapply (pinsGood_run tr st outs Hrun); eauto. }
    eexists. eexists. split; [eapply send_in_room; eauto|].
    simpl. split; [apply get_set_eq|]. split; [reflexivity|].
    rewrite roomLog_app. simpl. unfold logOutput. simpl.
    now rewrite String.eqb_refl.
  - exact Hlog.
  - intros sid sk pin nick room Hlive Hget Hfree.
    destruct (join_success st sid sk pin nick room Hlive Hget Hfree)
      as (st' & rest & Hstep & _ & room' & Hget' & Hmsgs).
    rewrite (Hlog pin room Hget) in Hstep, Hmsgs. eauto 6.
Qed.


Lemma message_order_is_preserved_witness :
  (exists st' room',
      step (stateAfter aliceTalks) (SendMessage "a" hola)
      = Some (st', [Emit (ToRoom "100000") (receive_message hola)])
      /\ JSMap.get "100000" (rooms st') = Some room'
      /\ messages room' = [hola; adios; hola])
  /\ [hola; adios] = roomLog "100000" (outputsAfter aliceTalks)
  /\ (exists st' rest room',
        step (stateAfter aliceTalks) (JoinRoom "b" "100000" "bob")
        = Some (st', Emit (ToSocket "b") (room_history [hola; adios]) :: rest)
        /\ JSMap.get "100000" (rooms st') = Some room'
        /\ messages room' = [hola; adios]).
Proof.
  destruct (message_order_is_preserved
              aliceTalks (stateAfter aliceTalks) (outputsAfter aliceTalks) eq_refl)
    as (Hsend & Hlog & Hjoin).
  split; [|split].
  - destruct (Hsend "a"
                {| connected := true; nickname := Some "alice";
                   currentRoom := Some "100000"; joined := ["100000"];
                   roomTimers := [] |}
                hola "100000"
                {| number := "7"; participants := [("a", "alice")];
                   maxParticipants := 2; messages := [hola; adios] |}
                eq_refl eq_refl eq_refl)
      as (st' & room' & Hstep & Hget & Hmsgs & _).
    exists st', room'. repeat split; assumption.
  - apply (Hlog "100000"
             {| number := "7"; participants := [("a", "alice")];
                maxParticipants := 2; messages := [hola; adios] |}).
    reflexivity.
  - apply (Hjoin "b" newSocket "100000" "bob"
             {| number := "7"; participants := [("a", "alice")];
                maxParticipants := 2; messages := [hola; adios] |});
      [reflexivity|reflexivity|vm_compute; reflexivity].
Defined.

(** C6. A [join_room] for a pin that is not in the registry answers the
    requesting socket alone with the room-not-found [join_error] and changes
    nothing: the state after the turn is the state before it, so no
    [currentRoom] is set and no room, participant, message or timer is
    touched. The same holds for the room-full [join_error]. *)
Theorem join_errors_leave_state_untouched st sid sk pin nick :
  liveSocket sid st = Some sk ->
  (JSMap.has pin (rooms st) = false ->
     step st (JoinRoom sid pin nick)
     = Some (st, [Emit (ToSocket sid) (join_error msgNotFound)]))
  /\ (forall room,
       JSMap.get pin (rooms st) = Some room ->
       maxParticipants room <= JSMap.size (participants room) ->
       step st (JoinRoom sid pin nick)
       = Some (st, [Emit (ToSocket sid) (join_error msgFull)]))
  /\ deliver st (ToSocket sid) = [sid].
Proof.
  intros Hlive. repeat split.
  - now apply join_unknown with sk.
  - intros room. now apply join_full with sk.
Qed.

Lemma join_errors_leave_state_untouched_witness :
  step (stateAfter bobJoins) (JoinRoom "c" "999999" "carol")
  = Some (stateAfter bobJoins, [Emit (ToSocket "c") (join_error msgNotFound)])
  /\ step (stateAfter bobJoins) (JoinRoom "c" "100000" "carol")
     = Some (stateAfter bobJoins, [Emit (ToSocket "c") (join_error msgFull)]).
Proof.
  pose proof (join_errors_leave_state_untouched
                (stateAfter bobJoins) "c" newSocket "999999" "carol" eq_refl)
    as [Hunknown _].
  pose proof (join_errors_leave_state_untouched
                (stateAfter bobJoins) "c" newSocket "100000" "carol" eq_refl)
    as [_ [Hfull _]].
  split.
  - apply Hunknown. reflexivity.
  - eapply Hfull; [reflexivity|vm_compute; discriminate].
Defined.

(** C7. In every state the server can reach, a [send_message] from a
    socket that has no current room, or whose current room pin is not in the
    registry, is dropped: nothing is emitted and the state is unchanged. From
    a socket whose current room is live, the message is pushed at the end of
    that room's message log and broadcast as [receive_message] to the
    Socket.IO room of the pin, which holds exactly the connected sockets of
    the room's participant map; no other room, no socket and no timer
    changes. *)
Theorem send_message_dropped_or_relayed tr st outs sid sk msg :
  run init tr = Some (st, outs) ->
  liveSocket sid st = Some sk ->
  (currentRoom sk = None
   \/ (exists pin, currentRoom sk = Some pin /\ JSMap.has pin (rooms st) = false) ->
   step st (SendMessage sid msg) = Some (st, []))
  /\ (forall pin room,
        currentRoom sk = Some pin ->
        JSMap.get pin (rooms st) = Some room ->
        exists st',
          step st (SendMessage sid msg)
          = Some (st', [Emit (ToRoom pin) (receive_message msg)])
          /\ JSMap.get pin (rooms st')
             = Some {| number := number room;
                       participants := participants room;
                       maxParticipants := maxParticipants room;
                       messages := messages room ++ [msg] |}
          /\ deliver st' (ToRoom pin) = connectedParticipants pin st'
          /\ (forall q, q <> pin ->
                JSMap.get q (rooms st') = JSMap.get q (rooms st))
          /\ sockets st' = sockets st
          /\ pending st' = pending st).
Proof.
  intros Hrun Hlive. split.
  - now apply send_without_room.
  - intros pin room Hcur Hget.
    assert (Htruthy : truthy (currentRoom sk) = Some pin).
    { rewrite Hcur. apply truthy_goodPin.
      eapply (pinsGood_run tr st outs Hrun); eauto. }
    pose proof (send_in_room st sid sk msg pin room Hlive Htruthy Hget) as Hstep.
    eexists. split; [exact Hstep|].
    split; [apply get_set_eq|].
    split; [exact (deliver_to_room _ _ _ pin (run_step _ _ _ _ _ _ _ Hrun Hstep))|].
    simpl. repeat split.
    intros q Hq. now apply get_set_ne.
Qed.

Lemma send_message_dropped_or_relayed_witness :
  step (stateAfter bobJoins) (SendMessage "c" hola)
  = Some (stateAfter bobJoins, [])
  /\ exists st',
       step (stateAfter bobJoins) (SendMessage "b" hola)
       = Some (st', [Emit (ToRoom "100000") (receive_message hola)])
       /\ JSMap.get "100000" (rooms st')
          = Some {| number := "7";
                    participants := [("a", "alice"); ("b", "bob")];
                    maxParticipants := 2;
                    messages := [hola] |}
       /\ deliver st' (ToRoom "100000") = ["a"; "b"].
Proof.
  split.
  - apply (proj1 (send_message_dropped_or_relayed
                    bobJoins (stateAfter bobJoins) _ "c" newSocket hola
                    eq_refl eq_refl)).
    left. reflexivity.
  - destruct (proj2 (send_message_dropped_or_relayed
                       bobJoins (stateAfter bobJoins) _ "b"
                       {| connected := true; nickname := Some "bob";
                          currentRoom := Some "100000"; joined := ["100000"];
                          roomTimers := [] |} hola eq_refl eq_refl)
                "100000"
                {| number := "7";
                   participants := [("a", "alice"); ("b", "bob")];
                   maxParticipants := 2; messages := [] |}
                eq_refl eq_refl) as (st' & Hstep & Hget & Hdeliver & _).
    exists st'. split; [assumption|]. split; [assumption|].
    rewrite Hdeliver.
    assert (Hst' : Some (st', [Emit (ToRoom "100000") (receive_message hola)])
                   = Some (fst (runFrom (stateAfter bobJoins) [SendMessage "b" hola]),
                           [Emit (ToRoom "100000") (receive_message hola)]))
      by (rewrite <- Hstep; reflexivity).
    injection Hst' as ->. reflexivity.
Defined.

(** C8, as the code has it. The room built by [create_room] gets as
    [maxParticipants] the number supplied in the request, or 5 when that
    number is 0 or absent; no bound is applied to it. From then on no turn
    of the event loop changes the [maxParticipants] of a room that stays in
    the registry. *)
Theorem maxParticipants_is_the_supplied_value_and_immutable :
  (forall st sid maxP roomNumber nick draws st' outs,
      step st (CreateRoom sid maxP roomNumber nick draws) = Some (st', outs) ->
      exists pin room,
        createdPins outs = [pin]
        /\ JSMap.get pin (rooms st') = Some room
        /\ maxParticipants room
           = match maxP with
             | Some n => if n =? 0 then 5 else n
             | None => 5
             end)
  /\ (forall st i st' outs pin r r',
        step st i = Some (st', outs) ->
        JSMap.get pin (rooms st) = Some r ->
        JSMap.get pin (rooms st') = Some r' ->
        maxParticipants r' = maxParticipants r)
  /\ (forall tr st st' outs pin r,
        JSMap.get pin (rooms st) = Some r ->
        livesThrough pin st tr = true ->
        run st tr = Some (st', outs) ->
        exists r', JSMap.get pin (rooms st') = Some r'
                   /\ maxParticipants r' = maxParticipants r).
Proof.
  split; [|split].
  - intros st sid maxP roomNumber nick draws st' outs Hstep.
    destruct (create_room_allocates _ _ _ _ _ _ _ _ Hstep)
      as (pin & Hout & _ & Hget).
    eexists. eexists. repeat split; eauto.
  - apply step_maxParticipants.
  - intros tr. apply run_maxParticipants.
Qed.

Lemma maxParticipants_is_the_supplied_value_and_immutable_witness :
  (exists pin room,
      createdPins
        (snd (runFrom (stateAfter [Connect "a"])
                [CreateRoom "a" (Some 100) None "alice" [0 # 1]])) = [pin]
      /\ JSMap.get pin
           (rooms (fst (runFrom (stateAfter [Connect "a"])
                          [CreateRoom "a" (Some 100) None "alice" [0 # 1]])))
         = Some room
      /\ maxParticipants room = 100)
  /\ maxParticipants
       {| number := "7"; participants := [("a", "alice"); ("b", "bob")];
          maxParticipants := 2; messages := [hola] |}
     = maxParticipants
         {| number := "7"; participants := [("a", "alice"); ("b", "bob")];
            maxParticipants := 2; messages := [] |}
  /\ (exists r', JSMap.get "100000" (rooms (stateAfter bobJoins)) = Some r'
                 /\ maxParticipants r' = 2).
Proof.
  destruct maxParticipants_is_the_supplied_value_and_immutable
    as (Hnew & Hstep & Hrun).
  split; [|split].
  - apply (Hnew (stateAfter [Connect "a"]) "a" (Some 100) None "alice" [0 # 1]).
    reflexivity.
  - apply (Hstep (stateAfter bobJoins) (SendMessage "a" hola)
             (fst (runFrom (stateAfter bobJoins) [SendMessage "a" hola]))
             (snd (runFrom (stateAfter bobJoins) [SendMessage "a" hola]))
             "100000");
      reflexivity.
  - apply (Hrun [Connect "b"; JoinRoom "b" "100000" "bob"; Connect "c"]
             (stateAfter aliceCreates) (stateAfter bobJoins)
             (snd (runFrom (stateAfter aliceCreates)
                     [Connect "b"; JoinRoom "b" "100000" "bob"; Connect "c"]))
             "100000"
             {| number := "7"; participants := [("a", "alice")];
                maxParticipants := 2; messages := [] |});
      reflexivity.
Defined.

(** C8 as stated fails: a request carrying 100 yields a room whose limit is
    100, outside 2..10. *)
Lemma maxParticipants_not_clamped :
  exists st outs r,
    run init [Connect "a"; CreateRoom "a" (Some 100) None "alice" [0 # 1]]
    = Some (st, outs)
    /\ JSMap.get "100000" (rooms st) = Some r
    /\ ~ (2 <= maxParticipants r <= 10).
Proof.
  eexists. eexists. eexists. split; [reflexivity|].
  split; [reflexivity|]. simpl. lia.
Qed.




(** C10. A socket that is already in the participant map of room [pin]
    and sends [join_room] again while the room has free places is accepted:
    the map keeps its size and key order, the entry of that socket now holds
    the new nickname, every other entry is as before, and the history
    replay, both [room_participants] broadcasts, [user_joined] and
    [available_rooms] are emitted. If the room is at capacity the same
    socket gets the room-full [join_error] and nothing changes. *)
Theorem rejoin_overwrites_nickname st sid sk pin nick' room old :
  liveSocket sid st = Some sk ->
  JSMap.get pin (rooms st) = Some room ->
  JSMap.get sid (participants room) = Some old ->
  (JSMap.size (participants room) < maxParticipants room ->
     exists st' room',
       step st (JoinRoom sid pin nick')
       = Some (st',
           [Emit (ToSocket sid) (room_history (messages room));
            Emit (ToRoom pin)
              (room_participants (JSMap.values (participants room')));
            Emit (ToRoom pin)
              (room_participants (JSMap.values (participants room')));
            Emit (ToRoom pin)
              (user_joined
                 {| un_nickname := Some nick';
                    un_roomNumber := str_or (Some (number room)) sinNumero;
                    un_currentParticipants := JSMap.size (participants room);
                    un_maxParticipants := maxParticipants room |});
            Emit ToAll (available_rooms (getAvailableRooms (rooms st')))])
       /\ JSMap.get pin (rooms st') = Some room'
       /\ JSMap.size (participants room') = JSMap.size (participants room)
       /\ JSMap.keys (participants room') = JSMap.keys (participants room)
       /\ JSMap.get sid (participants room') = Some nick'
       /\ (forall other, other <> sid ->
             JSMap.get other (participants room')
             = JSMap.get other (participants room))
       /\ messages room' = messages room
       /\ maxParticipants room' = maxParticipants room)
  /\ (maxParticipants room <= JSMap.size (participants room) ->
        step st (JoinRoom sid pin nick')
        = Some (st, [Emit (ToSocket sid) (join_error msgFull)])).
Proof.
  intros Hlive Hget Hmember. split.
  - intros Hfree.
    assert (E : (JSMap.size (participants room) >=? maxParticipants room) = false)
      by (rewrite Z.geb_leb; now apply Z.leb_gt).
    exists (fst (on_join_room sid sk pin nick' st)),
      {| number := number room;
         participants := JSMap.set sid nick' (participants room);
         maxParticipants := maxParticipants room;
         messages := messages room |}.
    unfold step. rewrite Hlive. unfold on_join_room. rewrite Hget, E.
    cbv zeta. simpl_fields. split; [|split].
    + rewrite (size_set_present sid nick' old _ Hmember). reflexivity.
    + simpl. apply get_set_eq.
    + simpl. repeat split.
      * now apply size_set_present with old.
      * now apply keys_set_present with old.
      * apply get_set_eq.
      * intros other Hne. apply get_set_ne. congruence.
  - intros Hfull. now apply join_full with sk room.
Qed.

Lemma rejoin_overwrites_nickname_witness :
  (exists st' room',
      step (stateAfter aliceCreates) (JoinRoom "a" "100000" "alicia")
      = Some (st',
          [Emit (ToSocket "a") (room_history []);
           Emit (ToRoom "100000")
             (room_participants (JSMap.values (participants room')));
           Emit (ToRoom "100000")
             (room_participants (JSMap.values (participants room')));
           Emit (ToRoom "100000")
             (user_joined
                {| un_nickname := Some "alicia"; un_roomNumber := "7";
                   un_currentParticipants := 1; un_maxParticipants := 2 |});
           Emit ToAll (available_rooms (getAvailableRooms (rooms st')))])
      /\ JSMap.get "100000" (rooms st') = Some room'
      /\ JSMap.size (participants room') = 1
      /\ JSMap.keys (participants room') = ["a"]
      /\ JSMap.get "a" (participants room') = Some "alicia")
  /\ step (stateAfter bobJoins) (JoinRoom "a" "100000" "alicia")
     = Some (stateAfter bobJoins, [Emit (ToSocket "a") (join_error msgFull)]).
Proof.
  split.
  - destruct (rejoin_overwrites_nickname
                (stateAfter aliceCreates) "a"
                {| connected := true; nickname := Some "alice";
                   currentRoom := Some "100000"; joined := ["100000"];
                   roomTimers := [] |}
                "100000" "alicia"
                {| number := "7"; participants := [("a", "alice")];
                   maxParticipants := 2; messages := [] |}
                "alice" eq_refl eq_refl eq_refl) as [Hfree _].
    destruct Hfree as (st' & room' & Hstep & Hget & Hsize & Hkeys & Hnick & _);
      [vm_compute; reflexivity|].
    exists st', room'. repeat split; assumption.
  - destruct (rejoin_overwrites_nickname
                (stateAfter bobJoins) "a"
                {| connected := true; nickname := Some "alice";
                   currentRoom := Some "100000"; joined := ["100000"];
                   roomTimers := [] |}
                "100000" "alicia"
                {| number := "7"; participants := [("a", "alice"); ("b", "bob")];
                   maxParticipants := 2; messages := [] |}
                "alice" eq_refl eq_refl eq_refl) as [_ Hfull].
    apply Hfull. vm_compute. discriminate.
Defined.

(* ===================================================================== *)
(** ** More facts about the registry *)
(* ===================================================================== *)

Lemma get_In {V} k (v : V) m : JSMap.get k m = Some v -> In (k, v) m.
Proof.
  induction m as [|[k' v'] m IH]; simpl; [discriminate|].
  destruct (String.eqb k k') eqn:E.
  - apply String.eqb_eq in E. subst. intros [= ->]. auto.
  - auto.
Qed.

Lemma keys_delete {V} k (m : list (string * V)) :
  JSMap.keys (JSMap.delete k m)
  = List.filter (fun x => negb (String.eqb k x)) (JSMap.keys m).
Proof.
  induction m as [|[k' v'] m IH]; simpl; [reflexivity|].
  destruct (String.eqb k k'); simpl; now rewrite IH.
Qed.


Lemma NoDup_keys_run tr st outs :
  run init tr = Some (st, outs) -> NoDup (JSMap.keys (rooms st)).
Proof.
  apply (run_invariant (fun s => NoDup (JSMap.keys (rooms s))) init).
  - constructor.
  - intros; eapply NoDup_keys_step; eauto.
Qed.


(* ===================================================================== *)
(** * Further properties of the server *)
(* ===================================================================== *)



(** X2. In every state the server can reach, [getAvailableRooms] lists
    exactly the rooms of the registry that hold fewer participants than
    their limit, each once and with its pin, number, participant count and
    limit; a full room is never listed. *)
Theorem available_rooms_are_the_rooms_with_a_free_place tr st outs :
  run init tr = Some (st, outs) ->
  (forall e,
      In e (getAvailableRooms (rooms st))
      <-> exists room,
            JSMap.get (ar_pin e) (rooms st) = Some room
            /\ JSMap.size (participants room) < maxParticipants room
            /\ e = entryOf (ar_pin e) room)
  /\ NoDup (List.map ar_pin (getAvailableRooms (rooms st)))
  /\ (forall pin room,
        JSMap.get pin (rooms st) = Some room ->
        maxParticipants room <= JSMap.size (participants room) ->
        ~ In pin (List.map ar_pin (getAvailableRooms (rooms st)))).
Proof.
  intros Hrun. pose proof (NoDup_keys_run tr st outs Hrun) as Hnd.
  assert (Hiff : forall e,
      In e (getAvailableRooms (rooms st))
      <-> exists room,
            JSMap.get (ar_pin e) (rooms st) = Some room
            /\ JSMap.size (participants room) < maxParticipants room
            /\ e = entryOf (ar_pin e) room).
  { intros e. unfold getAvailableRooms. rewrite in_map_iff. split.
    - intros [[pin room] [<- Hin]]. apply filter_In in Hin.
      destruct Hin as [Hin Hfree]. exists room. simpl.
      split; [now apply NoDup_keys_In_get|].
      split; [now apply Z.ltb_lt in Hfree|reflexivity].
    - intros (room & Hget & Hfree & He). exists (ar_pin e, room).
      split; [symmetry; exact He|].
      apply filter_In. split; [now apply get_In|].
      now apply Z.ltb_lt. }
  split; [exact Hiff|split].
  - unfold getAvailableRooms. rewrite map_map. simpl.
    change (NoDup (JSMap.keys (List.filter notFull (rooms st)))).
    clear Hiff. induction (rooms st) as [|[k v] m IH]; simpl; [constructor|].
    inversion Hnd as [|? ? Hnotin Hnd']; subst.
    destruct (notFull (k, v)); simpl; [|auto].
    constructor; [|auto]. intros Hin. apply Hnotin.
    unfold JSMap.keys in *. apply in_map_iff in Hin.
    destruct Hin as [[k' v'] [Hk Hin]]. simpl in Hk. subst k'.
    apply filter_In in Hin. apply in_map_iff. exists (k, v'). tauto.
  - intros pin room Hget Hfull Hin. apply in_map_iff in Hin.
    destruct Hin as [e [<- Hin]]. apply Hiff in Hin.
    destruct Hin as (room' & Hget' & Hfree & _).
    rewrite Hget in Hget'. injection Hget' as <-. lia.
Qed.

Lemma available_rooms_are_the_rooms_with_a_free_place_witness :
  (In (entryOf "100000"
         {| number := "7"; participants := [("a", "alice")];
            maxParticipants := 2; messages := [] |})
      (getAvailableRooms (rooms (stateAfter aliceCreates))))
  /\ ~ In "100000"
         (List.map ar_pin (getAvailableRooms (rooms (stateAfter bobJoins)))).
Proof.
  split.
  - destruct (available_rooms_are_the_rooms_with_a_free_place
                aliceCreates (stateAfter aliceCreates)
                (outputsAfter aliceCreates) eq_refl) as (Hiff & _ & _).
    apply Hiff. eexists. split; [reflexivity|]. split; [|reflexivity].
    vm_compute. reflexivity.
  - destruct (available_rooms_are_the_rooms_with_a_free_place
                bobJoins (stateAfter bobJoins)
                (outputsAfter bobJoins) eq_refl) as (_ & _ & Hfull).
    apply (Hfull "100000"
             {| number := "7"; participants := [("a", "alice"); ("b", "bob")];
                maxParticipants := 2; messages := [] |});
      [reflexivity|vm_compute; discriminate].
Defined.

(** X3. A pin leaves the registry in one way only: a timer armed for that
    pin fires, not before it is due, and finds the room without participants.
    So no turn of the event loop removes a room that has a participant. *)
Theorem rooms_are_removed_only_by_a_due_timer_on_an_empty_room
    st i st' outs pin room :
  step st i = Some (st', outs) ->
  JSMap.get pin (rooms st) = Some room ->
  (JSMap.has pin (rooms st') = false ->
     exists tm,
       i = TimerFire (tid tm)
       /\ In tm (pending st)
       /\ tpin tm = pin
       /\ due tm <= now st
       /\ JSMap.size (participants room) = 0)
  /\ (0 < JSMap.size (participants room) -> JSMap.has pin (rooms st') = true).
Proof.
  intros Hstep Hget.
  assert (Hgone : JSMap.has pin (rooms st') = false ->
     exists tm,
       i = TimerFire (tid tm) /\ In tm (pending st) /\ tpin tm = pin
       /\ due tm <= now st /\ JSMap.size (participants room) = 0).
  { intros Hgone.
    assert (Hhas : JSMap.has pin (rooms st) = true) by (apply has_true; eauto).
    destruct i; try (rewrite (step_rooms_mono _ _ _ _ pin Hstep eq_refl Hhas) in Hgone;
                     discriminate).
    unfold step in Hstep.
    destruct (findTimer i (pending st)) as [tm|] eqn:Hfind; [|discriminate].
    destruct (due tm <=? now st) eqn:Hdue; [|discriminate].
    apply Z.leb_le in Hdue. apply findTimer_In in Hfind.
    destruct Hfind as [Hin <-].
    unfold onTimeout in Hstep. simpl_fields.
    destruct (JSMap.get (tpin tm) (rooms st)) as [r|] eqn:Hr;
      [|injection Hstep as <- <-; simpl in Hgone; congruence].
    destruct (JSMap.size (participants r) =? 0) eqn:He;
      [|injection Hstep as <- <-; simpl in Hgone; congruence].
    injection Hstep as <- <-. simpl in Hgone.
    apply Z.eqb_eq in He. exists tm.
    destruct (String.eqb (tpin tm) pin) eqn:E.
    - apply String.eqb_eq in E. subst pin.
      assert (r = room) by congruence. subst r. auto.
    - apply String.eqb_neq in E. apply has_false in Hgone.
      rewrite get_delete_ne in Hgone by assumption. congruence. }
  split; [exact Hgone|].
  intros Hpos. destruct (JSMap.has pin (rooms st')) eqn:E; [reflexivity|].
  destruct (Hgone eq_refl) as (tm & _ & _ & _ & _ & Hzero). lia.
Qed.

Lemma rooms_are_removed_only_by_a_due_timer_on_an_empty_room_witness :
  (exists tm,
      TimerFire 1 = TimerFire (tid tm)
      /\ In tm (pending (stateAfter (aliceLeaves ++ [Elapse 30000])))
      /\ tpin tm = "100000"
      /\ due tm <= 30000
      /\ JSMap.size (@JSMap.empty string) = 0)
  /\ JSMap.has "100000"
       (rooms (fst (runFrom (stateAfter (bobRejoins ++ [Elapse 20000]))
                      [TimerFire 1]))) = true.
Proof.
  split.
  - apply (proj1 (rooms_are_removed_only_by_a_due_timer_on_an_empty_room
             (stateAfter (aliceLeaves ++ [Elapse 30000])) (TimerFire 1)
             (fst (runFrom (stateAfter (aliceLeaves ++ [Elapse 30000]))
                     [TimerFire 1]))
             (snd (runFrom (stateAfter (aliceLeaves ++ [Elapse 30000]))
                     [TimerFire 1]))
             "100000"
             {| number := "7"; participants := JSMap.empty;
                maxParticipants := 2; messages := [hola] |}
             eq_refl eq_refl)).
    reflexivity.
  - apply (proj2 (rooms_are_removed_only_by_a_due_timer_on_an_empty_room
             (stateAfter (bobRejoins ++ [Elapse 20000])) (TimerFire 1)
             (fst (runFrom (stateAfter (bobRejoins ++ [Elapse 20000]))
                     [TimerFire 1]))
             (snd (runFrom (stateAfter (bobRejoins ++ [Elapse 20000]))
                     [TimerFire 1]))
             "100000"
             {| number := "7"; participants := [("b", "bob")];
                maxParticipants := 2; messages := [hola] |}
             eq_refl eq_refl)).
    vm_compute. reflexivity.
Defined.

Ltac new_pin_is_free :=
  match goal with
  | H : generateUniquePin _ _ = Some _ |- _ =>
      apply generateUniquePin_sound in H;
      let Hf := fresh "Hfree" in
      destruct H as [Hf _]; apply has_false in Hf
  end.

Lemma RoomChange_messages r r' :
  RoomChange (Some r) r' ->
  messages r' = messages r \/ exists msg, messages r' = messages r ++ [msg].
Proof. intros H. inversion H; subst; simpl; eauto. Qed.

Lemma isPrefix_refl {A} (l : list A) : isPrefix l l.
Proof. exists []. now rewrite app_nil_r. Qed.

Lemma isPrefix_trans {A} (l1 l2 l3 : list A) :
  isPrefix l1 l2 -> isPrefix l2 l3 -> isPrefix l1 l3.
Proof.
  intros [a ->] [b ->]. exists (a ++ b). now rewrite app_assoc.
Qed.

(** X4. The message log of a room is append-only. One turn leaves the log
    of a room that stays in the registry as it was or adds one message at
    its end, and only a [send_message] turn adds one; over any run during
    which the room stays in the registry, the earlier log is an initial
    segment of the later one. *)
Theorem room_log_is_append_only :
  (forall st i st' outs pin r r',
      step st i = Some (st', outs) ->
      JSMap.get pin (rooms st) = Some r ->
      JSMap.get pin (rooms st') = Some r' ->
      messages r' = messages r
      \/ exists sid msg, i = SendMessage sid msg
                         /\ messages r' = messages r ++ [msg])
  /\ (forall tr st st' outs pin r,
        JSMap.get pin (rooms st) = Some r ->
        livesThrough pin st tr = true ->
        run st tr = Some (st', outs) ->
        exists r', JSMap.get pin (rooms st') = Some r'
                   /\ isPrefix (messages r) (messages r')).
Proof.
  assert (Hstep : forall st i st' outs pin r r',
      step st i = Some (st', outs) ->
      JSMap.get pin (rooms st) = Some r ->
      JSMap.get pin (rooms st') = Some r' ->
      messages r' = messages r
      \/ exists sid msg, i = SendMessage sid msg
                         /\ messages r' = messages r ++ [msg]).
  { intros st i st' outs pin r r' Hstep Hget Hget'.
    destruct i;
      try solve [left; step_inv Hstep; simpl in Hget';
                 get_set_cases Hget'; simpl;
                 first [congruence
                       |apply get_delete_Some in Hget'; congruence
                       |new_pin_is_free; congruence]].
    destruct (step_room_change _ _ _ _ _ _ Hstep Hget') as [Hch _].
    rewrite Hget in Hch. apply RoomChange_messages in Hch.
    destruct Hch as [->|[m Hm]]; [now left|]. right.
    step_inv Hstep; simpl in Hget'; try (rewrite Hget in Hget'; injection Hget' as <-;
      exfalso; apply (f_equal (@List.length _)) in Hm; rewrite length_app in Hm;
      simpl in Hm; lia).
    get_set_cases Hget'; simpl in *.
    - exists sid, msg. split; [reflexivity|]. congruence.
    - rewrite Hget in Hget'. injection Hget' as <-.
      exfalso. apply (f_equal (@List.length _)) in Hm. rewrite length_app in Hm.
      simpl in Hm. lia. }
  split; [exact Hstep|].
  induction tr as [|i tr IH]; intros st st' outs pin r Hget Hlive Hrun; simpl in *.
  - injection Hrun as <- <-. exists r. split; [assumption|apply isPrefix_refl].
  - destruct (step st i) as [[st1 o1]|] eqn:Hs; [|discriminate].
    apply andb_true_iff in Hlive. destruct Hlive as [Hhas Hlive].
    apply has_true in Hhas. destruct Hhas as [r1 Hget1].
    destruct (run st1 tr) as [[st2 o2]|] eqn:Hrest; [|discriminate].
    injection Hrun as <- <-.
    destruct (IH st1 st2 o2 pin r1 Hget1 Hlive Hrest) as (r' & Hget' & Hpre).
    exists r'. split; [assumption|].
    apply isPrefix_trans with (messages r1); [|assumption].
    destruct (Hstep st i st1 o1 pin r r1 Hs Hget Hget1) as [->|(s & m & _ & ->)].
    + apply isPrefix_refl.
    + now exists [m].
Qed.

Lemma room_log_is_append_only_witness :
  (messages {| number := "7"; participants := [("a", "alice")];
               maxParticipants := 2; messages := [hola; adios; hola] |}
   = [hola; adios]
   \/ exists sid msg,
        SendMessage "a" hola = SendMessage sid msg
        /\ messages {| number := "7"; participants := [("a", "alice")];
                       maxParticipants := 2; messages := [hola; adios; hola] |}
           = [hola; adios] ++ [msg])
  /\ (exists r',
        JSMap.get "100000" (rooms (stateAfter aliceTalks)) = Some r'
        /\ isPrefix [] (messages r')).
Proof.
  destruct room_log_is_append_only as [Hstep Hrun]. split.
  - apply (Hstep (stateAfter aliceTalks) (SendMessage "a" hola)
             (fst (runFrom (stateAfter aliceTalks) [SendMessage "a" hola]))
             (snd (runFrom (stateAfter aliceTalks) [SendMessage "a" hola]))
             "100000"
             {| number := "7"; participants := [("a", "alice")];
                maxParticipants := 2; messages := [hola; adios] |});
      reflexivity.
  - apply (Hrun [SendMessage "a" hola; SendMessage "a" adios; Connect "b"]
             (stateAfter aliceCreates) (stateAfter aliceTalks)
             (snd (runFrom (stateAfter aliceCreates)
                     [SendMessage "a" hola; SendMessage "a" adios; Connect "b"]))
             "100000"
             {| number := "7"; participants := [("a", "alice")];
                maxParticipants := 2; messages := [] |});
      reflexivity.
Defined.

Lemma str_or_nonempty s d : d <> "" -> str_or s d <> "".
Proof.
  intros Hd. unfold str_or. destruct s as [x|]; [|assumption].
  destruct (String.eqb x "") eqn:E; [assumption|]. now apply String.eqb_neq.
Qed.

Lemma str_or_self x d : x <> "" -> str_or (Some x) d = x.
Proof.
  intros Hx. unfold str_or. apply String.eqb_neq in Hx. now rewrite Hx.
Qed.

Lemma RoomChange_number o r' :
  RoomChange o r' ->
  match o with
  | Some r => number r' = number r
  | None => number r' <> ""
  end.
Proof.
  intros H. destruct H; simpl; try reflexivity.
  apply str_or_nonempty. discriminate.
Qed.

Lemma numbersSet_step st i st' o :
  numbersSet st -> step st i = Some (st', o) -> numbersSet st'.
Proof.
  intros Hinv Hstep p r' Hget.
  destruct (step_room_change _ _ _ _ _ _ Hstep Hget) as [Hch _].
  apply RoomChange_number in Hch.
  destruct (JSMap.get p (rooms st)) as [r|] eqn:E; [|assumption].
  rewrite Hch. eapply Hinv; eauto.
Qed.

Lemma numbersSet_run tr st outs : run init tr = Some (st, outs) -> numbersSet st.
Proof.
  apply (run_invariant numbersSet init).
  - intros p r H. discriminate H.
  - intros; eapply numbersSet_step; eauto.
Qed.

(** X5. The number of a room is the [roomNumber] of the [create_room]
    request, or the text "Sin número" when that is empty or absent; no turn
    changes it while the room is in the registry. Hence in every state the
    server can reach it is never empty, and the fallback
    [room.number || 'Sin número'] in [user_joined] and [user_left] always
    yields the stored number. *)
Theorem room_number_is_set_once_and_never_empty :
  (forall st sid maxP roomNumber nick draws st' outs,
      step st (CreateRoom sid maxP roomNumber nick draws) = Some (st', outs) ->
      exists pin room,
        createdPins outs = [pin]
        /\ JSMap.get pin (rooms st') = Some room
        /\ number room
           = match roomNumber with
             | Some x => if String.eqb x "" then "Sin número" else x
             | None => "Sin número"
             end)
  /\ (forall st i st' outs pin r r',
        step st i = Some (st', outs) ->
        JSMap.get pin (rooms st) = Some r ->
        JSMap.get pin (rooms st') = Some r' ->
        number r' = number r)
  /\ (forall tr st outs pin r,
        run init tr = Some (st, outs) ->
        JSMap.get pin (rooms st) = Some r ->
        number r <> "" /\ str_or (Some (number r)) sinNumero = number r).
Proof.
  split; [|split].
  - intros st sid maxP roomNumber nick draws st' outs Hstep.
    destruct (create_room_allocates _ _ _ _ _ _ _ _ Hstep)
      as (pin & Hout & _ & Hget).
    eexists. eexists. repeat split; eauto.
  - intros st i st' outs pin r r' Hstep Hget Hget'.
    destruct (step_room_change _ _ _ _ _ _ Hstep Hget') as [Hch _].
    rewrite Hget in Hch. now apply RoomChange_number in Hch.
  - intros tr st outs pin r Hrun Hget.
    pose proof (numbersSet_run tr st outs Hrun pin r Hget) as Hne.
    split; [assumption|now apply str_or_self].
Qed.

Lemma room_number_is_set_once_and_never_empty_witness :
  (exists pin room,
      createdPins
        (snd (runFrom (stateAfter bobJoins)
                [CreateRoom "c" None (Some "") "carol" [1 # 2]])) = [pin]
      /\ JSMap.get pin
           (rooms (fst (runFrom (stateAfter bobJoins)
                          [CreateRoom "c" None (Some "") "carol" [1 # 2]])))
         = Some room
      /\ number room = "Sin número")
  /\ number {| number := "7"; participants := [("a", "alice"); ("b", "bob")];
               maxParticipants := 2; messages := [hola] |}
     = number {| number := "7"; participants := [("a", "alice"); ("b", "bob")];
                 maxParticipants := 2; messages := [] |}
  /\ ("7" <> "" /\ str_or (Some "7") sinNumero = "7").
Proof.
  destruct room_number_is_set_once_and_never_empty as (Hnew & Hstep & Hrun).
  split; [|split].
  - apply (Hnew (stateAfter bobJoins) "c" None (Some "") "carol" [1 # 2]).
    reflexivity.
  - apply (Hstep (stateAfter bobJoins) (SendMessage "a" hola)
             (fst (runFrom (stateAfter bobJoins) [SendMessage "a" hola]))
             (snd (runFrom (stateAfter bobJoins) [SendMessage "a" hola]))
             "100000");
      reflexivity.
  - apply (Hrun bobJoins (stateAfter bobJoins) (outputsAfter bobJoins) "100000"
             {| number := "7"; participants := [("a", "alice"); ("b", "bob")];
                maxParticipants := 2; messages := [] |});
      reflexivity.
Defined.

(** X6. One turn of the event loop changes at most one room, and writes to
    no socket but the one whose handler (or whose timer) runs: every other
    pin maps to the same room as before and every other connection keeps
    its nickname, current room, Socket.IO rooms and timers. *)
Theorem a_turn_touches_one_room_and_one_socket st i st' outs :
  step st i = Some (st', outs) ->
  (exists pin, forall q, q <> pin ->
      JSMap.get q (rooms st') = JSMap.get q (rooms st))
  /\ (forall x, actorOf st i <> Some x ->
        JSMap.get x (sockets st') = JSMap.get x (sockets st)).
Proof.
  intros Hstep. split.
  - destruct (step_rooms_shape _ _ _ _ Hstep)
      as [->|[(p & r & ->)|[(p & r0 & r1 & ->)|(p & -> & _)]]].
    + exists "". reflexivity.
    + exists p. intros q Hq. now apply get_set_ne.
    + exists p. intros q Hq. now rewrite !get_set_ne.
    + exists p. intros q Hq. now apply get_delete_ne.
  - intros x Hx.
    step_inv Hstep; simpl in Hx; try reflexivity.
    all: try rewrite set_set.
    all: try (apply get_set_ne; congruence).
    match goal with
    | H : findTimer _ _ = Some ?tm |- _ =>
        rewrite H in Hx; simpl in Hx; unfold forgetTimer;
        destruct (JSMap.get (owner tm) (sockets st)); [|reflexivity]
    end.
    apply get_set_ne. congruence.
Qed.

Lemma a_turn_touches_one_room_and_one_socket_witness :
  (exists pin, forall q, q <> pin ->
      JSMap.get q (rooms (fst (runFrom (stateAfter bobJoins) [LeaveRoom "b"])))
      = JSMap.get q (rooms (stateAfter bobJoins)))
  /\ JSMap.get "a" (sockets (fst (runFrom (stateAfter bobJoins) [LeaveRoom "b"])))
     = JSMap.get "a" (sockets (stateAfter bobJoins)).
Proof.
  destruct (a_turn_touches_one_room_and_one_socket
              (stateAfter bobJoins) (LeaveRoom "b")
              (fst (runFrom (stateAfter bobJoins) [LeaveRoom "b"]))
              (snd (runFrom (stateAfter bobJoins) [LeaveRoom "b"]))
              eq_refl) as [Hrooms Hsockets].
  split; [exact Hrooms|]. apply Hsockets. discriminate.
Defined.

(* ===================================================================== *)
(** ** The current room of a socket *)
(* ===================================================================== *)

Lemma anchored_connect ss rs sid :
  anchored ss rs -> anchored (JSMap.set sid newSocket ss) rs.
Proof.
  intros H x sk q. rewrite get_set.
  destruct (String.eqb sid x); [|apply H]. intros [= <-]. discriminate.
Qed.

Lemma anchored_enter ss rs sid sk1 pin room1 :
  anchored ss rs ->
  currentRoom sk1 = Some pin ->
  (forall x, JSMap.has x (participants room1)
             = String.eqb x sid || inRoom x pin rs) ->
  anchored (JSMap.set sid sk1 ss) (JSMap.set pin room1 rs).
Proof.
  intros H Hcur Hparts x sk q. rewrite get_set, inRoom_set.
  destruct (String.eqb sid x) eqn:E.
  - apply String.eqb_eq in E. subst x. intros [= <-] Hq.
    rewrite Hcur in Hq. injection Hq as <-.
    now rewrite String.eqb_refl, Hparts, String.eqb_refl.
  - intros Hx Hq. pose proof (H x sk q Hx Hq) as Hin.
    destruct (String.eqb pin q) eqn:Eq; [|assumption].
    apply String.eqb_eq in Eq. subst q. rewrite Hparts, Hin. apply orb_true_r.
Qed.

Lemma anchored_exit ss rs sid sk1 pin room1 :
  anchored ss rs ->
  currentRoom sk1 = None ->
  (forall x, JSMap.has x (participants room1)
             = negb (String.eqb x sid) && inRoom x pin rs) ->
  anchored (JSMap.set sid sk1 ss) (JSMap.set pin room1 rs).
Proof.
  intros H Hcur Hparts x sk q. rewrite get_set, inRoom_set.
  destruct (String.eqb sid x) eqn:E.
  - intros [= <-] Hq. congruence.
  - intros Hx Hq. pose proof (H x sk q Hx Hq) as Hin.
    destruct (String.eqb pin q) eqn:Eq; [|assumption].
    apply String.eqb_eq in Eq. subst q.
    now rewrite Hparts, Hin, String.eqb_sym, E.
Qed.

Lemma anchored_socket ss rs sid s sk1 :
  anchored ss rs ->
  JSMap.get sid ss = Some s ->
  currentRoom sk1 = currentRoom s ->
  anchored (JSMap.set sid sk1 ss) rs.
Proof.
  intros H Hs Hcur x sk q. rewrite get_set.
  destruct (String.eqb sid x) eqn:E; [|apply H].
  apply String.eqb_eq in E. subst x. intros [= <-] Hq.
  rewrite Hcur in Hq. eapply H; eauto.
Qed.

Lemma anchored_push ss rs pin r room1 :
  anchored ss rs ->
  JSMap.get pin rs = Some r ->
  participants room1 = participants r ->
  anchored ss (JSMap.set pin room1 rs).
Proof.
  intros H Hr Hparts x sk q Hx Hq. rewrite inRoom_set.
  pose proof (H x sk q Hx Hq) as Hin.
  destruct (String.eqb pin q) eqn:E; [|assumption].
  apply String.eqb_eq in E. subst q.
  now rewrite Hparts, <- (inRoom_get x pin rs r Hr).
Qed.

Lemma forgetTimer_currentRoom o p ss sid sk' :
  JSMap.get sid (forgetTimer o p ss) = Some sk' ->
  exists sk, JSMap.get sid ss = Some sk /\ currentRoom sk' = currentRoom sk.
Proof.
  unfold forgetTimer. destruct (JSMap.get o ss) as [s|] eqn:E; [|eauto].
  rewrite get_set. destruct (String.eqb o sid) eqn:Eo; [|eauto].
  apply String.eqb_eq in Eo. subst o. intros [= <-]. eauto.
Qed.

Lemma anchored_timer ss rs o pin r :
  anchored ss rs ->
  JSMap.get pin rs = Some r ->
  JSMap.size (participants r) = 0 ->
  anchored (forgetTimer o pin ss) (JSMap.delete pin rs).
Proof.
  intros H Hr Hempty x sk q Hx Hq.
  apply forgetTimer_currentRoom in Hx. destruct Hx as (sk0 & Hx & Hcur).
  rewrite Hcur in Hq. pose proof (H x sk0 q Hx Hq) as Hin.
  rewrite inRoom_delete. destruct (String.eqb pin q) eqn:E; [|assumption].
  apply String.eqb_eq in E. subst q.
  rewrite (inRoom_get x pin rs r Hr), (size_zero_has x _ Hempty) in Hin.
  discriminate.
Qed.

Lemma currentRoomsLive_step st i st' o :
  currentRoomsLive st -> step st i = Some (st', o) -> currentRoomsLive st'.
Proof.
  unfold currentRoomsLive. intros Hm Hstep.
  step_inv Hstep; try assumption.
  all: repeat match goal with
       | H : liveSocket _ _ = Some _ |- _ =>
           apply liveSocket_get in H; destruct H as [? ?]
       | H : generateUniquePin _ _ = Some _ |- _ =>
           apply generateUniquePin_sound in H; destruct H as [? _]
       end.
  all: try rewrite !set_set.
  all: try match goal with
       | H : (_ =? 0) = true |- _ => apply Z.eqb_eq in H
       end.
  all: try (apply anchored_connect; assumption).
  all: try (eapply anchored_push; [eassumption|eassumption|reflexivity]).
  all: try (eapply anchored_timer; eassumption).
  all: try (eapply anchored_socket; [eassumption|eassumption|reflexivity]).
  all: try (eapply anchored_enter; [eassumption|reflexivity|];
            intros x; simpl participants;
            first [ rewrite has_set, (String.eqb_sym sid x);
                    erewrite inRoom_get by eassumption; reflexivity
                  | rewrite inRoom_absent by assumption;
                    unfold JSMap.has; simpl;
                    destruct (String.eqb x sid); reflexivity ]).
  all: try (eapply anchored_exit; [eassumption|reflexivity|];
            intros x; simpl participants;
            rewrite has_delete, (String.eqb_sym sid x);
            erewrite inRoom_get by eassumption; reflexivity).
Qed.

Lemma currentRoomsLive_run tr st outs :
  run init tr = Some (st, outs) -> currentRoomsLive st.
Proof.
  apply (run_invariant currentRoomsLive init).
  - intros sid sk pin H. discriminate H.
  - intros; eapply currentRoomsLive_step; eauto.
Qed.

Lemma current_room_found tr st outs sid sk pin :
  run init tr = Some (st, outs) ->
  JSMap.get sid (sockets st) = Some sk ->
  currentRoom sk = Some pin ->
  truthy (currentRoom sk) = Some pin
  /\ exists room, JSMap.get pin (rooms st) = Some room
                  /\ JSMap.has sid (participants room) = true.
Proof.
  intros Hrun Hget Hcur.
  pose proof (currentRoomsLive_run tr st outs Hrun sid sk pin Hget Hcur) as Hin.
  unfold inRoom in Hin.
  destruct (JSMap.get pin (rooms st)) as [room|] eqn:Hroom; [|discriminate].
  split; [|eauto]. rewrite Hcur. apply truthy_goodPin.
  eapply (pinsGood_run tr st outs Hrun); eauto.
Qed.

(** X7. In every state the server can reach, the [currentRoom] of a
    socket, when set, is the pin of a room that is in the registry and has
    that socket in its participant map. So a [send_message] from a connected
    socket with a current room is never dropped. *)
Theorem current_room_is_live_and_lists_the_socket tr st outs sid sk pin :
  run init tr = Some (st, outs) ->
  JSMap.get sid (sockets st) = Some sk ->
  currentRoom sk = Some pin ->
  (exists room, JSMap.get pin (rooms st) = Some room
                /\ JSMap.has sid (participants room) = true)
  /\ (connected sk = true ->
      forall msg, exists st',
        step st (SendMessage sid msg)
        = Some (st', [Emit (ToRoom pin) (receive_message msg)])).
Proof.
  intros Hrun Hget Hcur.
  destruct (current_room_found tr st outs sid sk pin Hrun Hget Hcur)
    as (Htruthy & room & Hroom & Hmember).
  split; [eauto|]. intros Hconn msg.
  assert (Hlive : liveSocket sid st = Some sk)
    by (unfold liveSocket; now rewrite Hget, Hconn).
  eexists. eapply send_in_room; eauto.
Qed.

Lemma current_room_is_live_and_lists_the_socket_witness :
  (exists room, JSMap.get "100000" (rooms (stateAfter bobJoins)) = Some room
                /\ JSMap.has "b" (participants room) = true)
  /\ exists st',
       step (stateAfter bobJoins) (SendMessage "b" hola)
       = Some (st', [Emit (ToRoom "100000") (receive_message hola)]).
Proof.
  destruct (current_room_is_live_and_lists_the_socket
              bobJoins (stateAfter bobJoins) (outputsAfter bobJoins) "b"
              {| connected := true; nickname := Some "bob";
                 currentRoom := Some "100000"; joined := ["100000"];
                 roomTimers := [] |} "100000" eq_refl eq_refl eq_refl)
    as [Hroom Hsend].
  split; [exact Hroom|]. apply Hsend. reflexivity.
Defined.

(** X8. [get_room_participants] is read-only. In every state the server
    can reach, a connected socket with a current room is answered, alone,
    with the nicknames of that room's participants in the order they
    joined; a socket without a current room gets no answer at all. *)
Theorem get_room_participants_answers_in_join_order tr st outs sid sk :
  run init tr = Some (st, outs) ->
  liveSocket sid st = Some sk ->
  (currentRoom sk = None ->
     step st (GetRoomParticipants sid) = Some (st, []))
  /\ (forall pin,
        currentRoom sk = Some pin ->
        exists room,
          JSMap.get pin (rooms st) = Some room
          /\ step st (GetRoomParticipants sid)
             = Some (st, [Emit (ToSocket sid)
                            (room_participants
                               (JSMap.values (participants room)))])).
Proof.
  intros Hrun Hlive. split.
  - intros Hnone. unfold step. rewrite Hlive.
    unfold on_get_room_participants. now rewrite Hnone.
  - intros pin Hcur. destruct (liveSocket_get _ _ _ Hlive) as [Hget _].
    destruct (current_room_found tr st outs sid sk pin Hrun Hget Hcur)
      as (Htruthy & room & Hroom & _).
    exists room. split; [assumption|].
    unfold step. rewrite Hlive. unfold on_get_room_participants.
    now rewrite Htruthy, Hroom.
Qed.

Lemma get_room_participants_answers_in_join_order_witness :
  step (stateAfter bobJoins) (GetRoomParticipants "c")
  = Some (stateAfter bobJoins, [])
  /\ exists room,
       JSMap.get "100000" (rooms (stateAfter bobJoins)) = Some room
       /\ step (stateAfter bobJoins) (GetRoomParticipants "b")
          = Some (stateAfter bobJoins,
                  [Emit (ToSocket "b") (room_participants ["alice"; "bob"])]).
Proof.
  split.
  - apply (proj1 (get_room_participants_answers_in_join_order
                    bobJoins (stateAfter bobJoins) (outputsAfter bobJoins)
                    "c" newSocket eq_refl eq_refl)).
    reflexivity.
  - destruct (proj2 (get_room_participants_answers_in_join_order
                       bobJoins (stateAfter bobJoins) (outputsAfter bobJoins)
                       "b"
                       {| connected := true; nickname := Some "bob";
                          currentRoom := Some "100000"; joined := ["100000"];
                          roomTimers := [] |} eq_refl eq_refl)
                "100000" eq_refl) as (room & Hroom & Hstep).
    exists room. split; [assumption|].
    assert (E : room = {| number := "7";
                          participants := [("a", "alice"); ("b", "bob")];
                          maxParticipants := 2; messages := [] |}).
    { assert (H : Some room
                  = Some {| number := "7";
                            participants := [("a", "alice"); ("b", "bob")];
                            maxParticipants := 2; messages := [] |})
        by (rewrite <- Hroom; reflexivity).
      now injection H. }
    rewrite Hstep, E. reflexivity.
Defined.

(* ===================================================================== *)
(** ** Leaving and disconnecting *)
(* ===================================================================== *)

Lemma size_delete_lt {V} k (m : list (string * V)) :
  JSMap.has k m = true -> JSMap.size (JSMap.delete k m) < JSMap.size m.
Proof.
  unfold JSMap.has, JSMap.size.
  induction m as [|[k' v'] m IH]; simpl; [discriminate|].
  destruct (String.eqb k k') eqn:E; simpl.
  - intros _. pose proof (size_delete_le k m) as H. unfold JSMap.size in H. lia.
  - intros H. specialize (IH H). lia.
Qed.

(** X9. In every state the server can reach, [leave_room] from a socket
    without a current room does nothing and emits nothing. From a socket
    with a current room it removes that socket from the room's participant
    map, keeping the other participants in their order and the room, its
    number, limit and messages in the registry; it broadcasts [user_left]
    with the new participant count, the remaining nicknames and the new
    list of available rooms; and it clears the socket's current room, so a
    second [leave_room] does nothing. *)
Theorem leave_room_removes_the_socket_once tr st outs sid sk :
  run init tr = Some (st, outs) ->
  liveSocket sid st = Some sk ->
  (currentRoom sk = None -> step st (LeaveRoom sid) = Some (st, []))
  /\ (forall pin,
        currentRoom sk = Some pin ->
        exists room st' sk',
          JSMap.get pin (rooms st) = Some room
          /\ step st (LeaveRoom sid)
             = Some (st',
                 [Emit (ToRoom pin)
                    (user_left
                       {| un_nickname := nickname sk;
                          un_roomNumber := number room;
                          un_currentParticipants :=
                            JSMap.size (JSMap.delete sid (participants room));
                          un_maxParticipants := maxParticipants room |});
                  Emit (ToRoom pin)
                    (room_participants
                       (JSMap.values (JSMap.delete sid (participants room))));
                  Emit ToAll (available_rooms (getAvailableRooms (rooms st')))])
          /\ JSMap.get pin (rooms st')
             = Some {| number := number room;
                       participants := JSMap.delete sid (participants room);
                       maxParticipants := maxParticipants room;
                       messages := messages room |}
          /\ JSMap.has sid (JSMap.delete sid (participants room)) = false
          /\ JSMap.keys (JSMap.delete sid (participants room))
             = List.filter (fun x => negb (String.eqb sid x))
                 (JSMap.keys (participants room))
          /\ JSMap.size (JSMap.delete sid (participants room))
             < JSMap.size (participants room)
          /\ liveSocket sid st' = Some sk'
          /\ currentRoom sk' = None
          /\ nickname sk' = nickname sk
          /\ step st' (LeaveRoom sid) = Some (st', [])).
Proof.
  intros Hrun Hlive. split.
  - intros Hnone. unfold step. rewrite Hlive. unfold leaveCurrentRoom.
    now rewrite Hnone.
  - intros pin Hcur. destruct (liveSocket_get _ _ _ Hlive) as [Hget Hconn].
    destruct (current_room_found tr st outs sid sk pin Hrun Hget Hcur)
      as (Htruthy & room & Hroom & Hmember).
    pose proof (numbersSet_run tr st outs Hrun pin room Hroom) as Hnum.
    exists room, (fst (leaveCurrentRoom sid sk st)).
    assert (Hsock : exists sk',
               JSMap.get sid (sockets (fst (leaveCurrentRoom sid sk st))) = Some sk'
               /\ connected sk' = true /\ currentRoom sk' = None
               /\ nickname sk' = nickname sk).
    { unfold leaveCurrentRoom. rewrite Htruthy, Hroom. cbv zeta. simpl_fields.
      eexists. split; [apply get_set_eq|]. simpl. auto. }
    destruct Hsock as (sk' & Hget' & Hconn' & Hcur' & Hnick').
    assert (Hlive' : liveSocket sid (fst (leaveCurrentRoom sid sk st)) = Some sk')
      by (unfold liveSocket; now rewrite Hget', Hconn').
    exists sk'. split; [assumption|]. split.
    { unfold step. rewrite Hlive. unfold leaveCurrentRoom.
      rewrite Htruthy, Hroom. cbv zeta. simpl_fields.
      rewrite (str_or_self _ _ Hnum). reflexivity. }
    split.
    { unfold leaveCurrentRoom. rewrite Htruthy, Hroom. cbv zeta. simpl_fields.
      apply get_set_eq. }
    split; [rewrite has_delete, String.eqb_refl; reflexivity|].
    split; [apply keys_delete|].
    split; [now apply size_delete_lt|].
    split; [assumption|]. split; [assumption|]. split; [assumption|].
    unfold step. rewrite Hlive'. unfold leaveCurrentRoom. now rewrite Hcur'.
Qed.

Lemma leave_room_removes_the_socket_once_witness :
  step (stateAfter bobJoins) (LeaveRoom "c") = Some (stateAfter bobJoins, [])
  /\ exists room st' sk',
       JSMap.get "100000" (rooms (stateAfter bobJoins)) = Some room
       /\ JSMap.get "100000" (rooms st')
          = Some {| number := number room;
                    participants := JSMap.delete "a" (participants room);
                    maxParticipants := maxParticipants room;
                    messages := messages room |}
       /\ liveSocket "a" st' = Some sk'
       /\ currentRoom sk' = None
       /\ step st' (LeaveRoom "a") = Some (st', []).
Proof.
  split.
  - apply (proj1 (leave_room_removes_the_socket_once
                    bobJoins (stateAfter bobJoins) (outputsAfter bobJoins)
                    "c" newSocket eq_refl eq_refl)).
    reflexivity.
  - destruct (proj2 (leave_room_removes_the_socket_once
                       bobJoins (stateAfter bobJoins) (outputsAfter bobJoins)
                       "a"
                       {| connected := true; nickname := Some "alice";
                          currentRoom := Some "100000"; joined := ["100000"];
                          roomTimers := [] |} eq_refl eq_refl)
                "100000" eq_refl)
      as (room & st' & sk' & Hroom & _ & Hget' & _ & _ & _ & Hlive' & Hcur' & _ & Hagain).
    exists room, st', sk'. repeat split; assumption.
Defined.

(** X10. [disconnect] runs the same [leaveCurrentRoom] as [leave_room]:
    for a connected socket both turns yield the same registry, the same
    pending timers, the same clock and next timer id and the same outputs,
    and they agree on every other socket. The two differ only in the socket
    itself, which after [disconnect] is no longer connected and has left
    all its Socket.IO rooms, with the same nickname, current room and
    timers as after [leave_room]. *)
Theorem disconnect_has_the_effects_of_leave_room st sid sk st1 o1 st2 o2 :
  liveSocket sid st = Some sk ->
  step st (LeaveRoom sid) = Some (st1, o1) ->
  step st (Disconnect sid) = Some (st2, o2) ->
  rooms st2 = rooms st1
  /\ pending st2 = pending st1
  /\ nextTimerId st2 = nextTimerId st1
  /\ now st2 = now st1
  /\ o2 = o1
  /\ (forall x, x <> sid ->
        JSMap.get x (sockets st2) = JSMap.get x (sockets st1))
  /\ exists sk1 sk2,
       JSMap.get sid (sockets st1) = Some sk1
       /\ JSMap.get sid (sockets st2) = Some sk2
       /\ connected sk2 = false
       /\ joined sk2 = []
       /\ nickname sk2 = nickname sk1
       /\ currentRoom sk2 = currentRoom sk1
       /\ roomTimers sk2 = roomTimers sk1.
Proof.
  intros Hlive Hleave Hdisc.
  destruct (liveSocket_get _ _ _ Hlive) as [Hget Hconn].
  unfold step in Hleave, Hdisc. rewrite Hlive in Hleave, Hdisc.
  unfold on_disconnect, leaveCurrentRoom in *. simpl_fields.
  destruct (truthy (currentRoom sk)) as [pin|] eqn:Hcur.
  2: { injection Hleave as <- <-. injection Hdisc as <- <-. simpl.
       repeat split; auto.
       - intros x Hx. apply get_set_ne. congruence.
       - exists sk. eexists. split; [assumption|].
         split; [apply get_set_eq|]. simpl. auto. }
  destruct (JSMap.get pin (rooms st)) as [room|] eqn:Hroom.
  2: { injection Hleave as <- <-. injection Hdisc as <- <-. simpl.
       repeat split; auto.
       - intros x Hx. apply get_set_ne. congruence.
       - exists sk. eexists. split; [assumption|].
         split; [apply get_set_eq|]. simpl. auto. }
  cbv zeta in Hleave, Hdisc. simpl_fields.
  injection Hleave as <- <-. injection Hdisc as <- <-. simpl_fields.
  rewrite set_set.
  repeat split; auto.
  - intros x Hx. rewrite !get_set_ne by congruence. reflexivity.
  - eexists. eexists. split; [apply get_set_eq|].
    split; [apply get_set_eq|]. simpl. auto.
Qed.

Lemma disconnect_has_the_effects_of_leave_room_witness :
  rooms (fst (runFrom (stateAfter bobJoins) [Disconnect "b"]))
  = rooms (fst (runFrom (stateAfter bobJoins) [LeaveRoom "b"]))
  /\ snd (runFrom (stateAfter bobJoins) [Disconnect "b"])
     = snd (runFrom (stateAfter bobJoins) [LeaveRoom "b"]).
Proof.
  destruct (disconnect_has_the_effects_of_leave_room
              (stateAfter bobJoins) "b"
              {| connected := true; nickname := Some "bob";
                 currentRoom := Some "100000"; joined := ["100000"];
                 roomTimers := [] |}
              (fst (runFrom (stateAfter bobJoins) [LeaveRoom "b"]))
              (snd (runFrom (stateAfter bobJoins) [LeaveRoom "b"]))
              (fst (runFrom (stateAfter bobJoins) [Disconnect "b"]))
              (snd (runFrom (stateAfter bobJoins) [Disconnect "b"]))
              eq_refl eq_refl eq_refl)
    as (Hrooms & _ & _ & _ & Houts & _).
  split; assumption.
Defined.

(* ===================================================================== *)
(** ** Entering a room *)
(* ===================================================================== *)



(** X12. [create_room] with a generator that eventually yields a free pin
    returns: the new room is stored under that pin with the creator as its
    only participant and an empty message log, the creator's nickname and
    current room are set, [room_created] reports the pin with one
    participant, and every room that was in the registry is unchanged. *)
Theorem create_room_installs_the_creator
    st sid sk maxP roomNumber nick rejected r rest :
  liveSocket sid st = Some sk ->
  forallb Math_random_ok (rejected ++ r :: rest) = true ->
  (forall x, In x rejected -> JSMap.has (samplePin x) (rooms st) = true) ->
  JSMap.has (samplePin r) (rooms st) = false ->
  exists st' sk',
    step st (CreateRoom sid maxP roomNumber nick (rejected ++ r :: rest))
    = Some (st',
        [Emit (ToSocket sid)
           (room_created
              {| ri_pin := samplePin r;
                 ri_roomNumber := roomNumber;
                 ri_currentParticipants := 1;
                 ri_maxParticipants := num_or maxP 5 |});
         Emit ToAll (available_rooms (getAvailableRooms (rooms st')))])
    /\ JSMap.get (samplePin r) (rooms st')
       = Some {| number := str_or roomNumber sinNumero;
                 participants := [(sid, nick)];
                 maxParticipants := num_or maxP 5;
                 messages := [] |}
    /\ JSMap.keys (rooms st') = JSMap.keys (rooms st) ++ [samplePin r]
    /\ (forall q room, JSMap.get q (rooms st) = Some room ->
                       JSMap.get q (rooms st') = Some room)
    /\ liveSocket sid st' = Some sk'
    /\ currentRoom sk' = Some (samplePin r)
    /\ nickname sk' = Some nick.
Proof.
  intros Hlive Hok Hrej Hfree.
  destruct (liveSocket_get _ _ _ Hlive) as [Hget Hconn].
  pose proof (generateUniquePin_retry _ _ _ rest Hrej Hfree) as Hgen.
  assert (Hres : exists res,
             on_create_room sid sk maxP roomNumber nick (rejected ++ r :: rest) st
             = Some res).
  { unfold on_create_room. rewrite Hgen. eauto. }
  destruct Hres as [[st' outs] Hres].
  exists st'. unfold step. rewrite Hlive, Hok, Hres.
  unfold on_create_room in Hres. rewrite Hgen in Hres. cbv zeta in Hres.
  simpl_fields. rewrite set_set in Hres. injection Hres as <- <-. simpl_fields.
  eexists. split; [reflexivity|].
  apply has_false in Hfree.
  split; [apply get_set_eq|].
  split; [now apply keys_set_absent|].
  split.
  { intros q room Hq. rewrite get_set_ne; [assumption|]. intros <-. congruence. }
  split.
  { unfold liveSocket. simpl_fields. rewrite get_set_eq. simpl.
    rewrite Hconn. reflexivity. }
  split; reflexivity.
Qed.

Lemma create_room_installs_the_creator_witness :
  exists st' sk',
    step (stateAfter bobJoins) (CreateRoom "c" None None "carol" [0 # 1; 1 # 2])
    = Some (st',
        [Emit (ToSocket "c")
           (room_created
              {| ri_pin := "550000"; ri_roomNumber := None;
                 ri_currentParticipants := 1; ri_maxParticipants := 5 |});
         Emit ToAll (available_rooms (getAvailableRooms (rooms st')))])
    /\ JSMap.keys (rooms st') = ["100000"; "550000"]
    /\ liveSocket "c" st' = Some sk'
    /\ currentRoom sk' = Some "550000".
Proof.
  destruct (create_room_installs_the_creator
              (stateAfter bobJoins) "c" newSocket None None "carol"
              [0 # 1] (1 # 2) [] eq_refl eq_refl)
    as (st' & sk' & Hstep & _ & Hkeys & _ & Hlive & Hcur & _).
  - intros x [<-|[]]. reflexivity.
  - reflexivity.
  - exists st', sk'. repeat split; assumption.
Defined.

(* ===================================================================== *)
(** ** The feed of available rooms *)
(* ===================================================================== *)

Lemma getAvailableRooms_set_same pin r room1 rs :
  JSMap.get pin rs = Some r ->
  number room1 = number r ->
  participants room1 = participants r ->
  maxParticipants room1 = maxParticipants r ->
  getAvailableRooms (JSMap.set pin room1 rs) = getAvailableRooms rs.
Proof.
  intros Hget Hn Hp Hm. unfold getAvailableRooms.
  induction rs as [|[k v] m IH]; simpl in *; [discriminate|].
  destruct (String.eqb pin k) eqn:E.
  - apply String.eqb_eq in E. subst k. injection Hget as ->. simpl.
    assert (Hfull : notFull (pin, room1) = notFull (pin, r))
      by (unfold notFull; simpl; now rewrite Hp, Hm).
    rewrite Hfull. destruct (notFull (pin, r)); [|reflexivity].
    simpl. f_equal. unfold availableEntry. simpl. now rewrite Hn, Hp, Hm.
  - simpl. destruct (notFull (k, v)); simpl; now rewrite (IH Hget).
Qed.

(** X13. The feed of available rooms is never stale. Whatever list a
    turn broadcasts to all sockets as [available_rooms] is the list for the
    registry as the turn leaves it; and a turn after which that list differs
    from before always broadcasts it. [get_available_rooms] answers the
    requester alone with the current list and changes nothing. *)
Theorem available_rooms_feed_is_current st i st' outs :
  step st i = Some (st', outs) ->
  (forall l, In (Emit ToAll (available_rooms l)) outs ->
             l = getAvailableRooms (rooms st'))
  /\ (getAvailableRooms (rooms st') = getAvailableRooms (rooms st)
      \/ In (Emit ToAll (available_rooms (getAvailableRooms (rooms st')))) outs)
  /\ (forall sid, i = GetAvailableRooms sid ->
        st' = st
        /\ outs = [Emit (ToSocket sid)
                     (available_rooms (getAvailableRooms (rooms st)))]).
Proof.
  intros Hstep. split; [|split].
  - intros l Hin. step_inv Hstep; simpl in Hin;
      repeat (destruct Hin as [Hin|Hin]; [try discriminate Hin|]);
      try contradiction;
      try (injection Hin as <-; simpl_fields; try rewrite set_set; reflexivity).
  - step_inv Hstep; try (left; reflexivity);
      try (right; simpl; tauto).
    left. eapply getAvailableRooms_set_same; eauto.
  - intros sid ->. unfold step in Hstep.
    destruct (liveSocket sid st); [|discriminate].
    unfold on_get_available_rooms in Hstep. injection Hstep as <- <-. auto.
Qed.

Lemma available_rooms_feed_is_current_witness :
  (getAvailableRooms (rooms (fst (runFrom (stateAfter aliceCreates)
                                    [Connect "b"; JoinRoom "b" "100000" "bob"])))
   = []
   /\ In (Emit ToAll (available_rooms []))
        (snd (runFrom (stateAfter (aliceCreates ++ [Connect "b"]))
                [JoinRoom "b" "100000" "bob"])))
  /\ (fst (runFrom (stateAfter bobJoins) [GetAvailableRooms "c"])
      = stateAfter bobJoins
      /\ snd (runFrom (stateAfter bobJoins) [GetAvailableRooms "c"])
         = [Emit (ToSocket "c") (available_rooms [])]).
Proof.
  split.
  - split; [reflexivity|].
    destruct (available_rooms_feed_is_current
                (stateAfter (aliceCreates ++ [Connect "b"]))
                (JoinRoom "b" "100000" "bob")
                (fst (runFrom (stateAfter (aliceCreates ++ [Connect "b"]))
                        [JoinRoom "b" "100000" "bob"]))
                (snd (runFrom (stateAfter (aliceCreates ++ [Connect "b"]))
                        [JoinRoom "b" "100000" "bob"]))
                eq_refl) as (_ & [Hsame|Hin] & _).
    + vm_compute in Hsame. discriminate Hsame.
    + exact Hin.
  - apply (proj2 (proj2 (available_rooms_feed_is_current
             (stateAfter bobJoins) (GetAvailableRooms "c")
             (fst (runFrom (stateAfter bobJoins) [GetAvailableRooms "c"]))
             (snd (runFrom (stateAfter bobJoins) [GetAvailableRooms "c"]))
             eq_refl)) "c").
    reflexivity.
Defined.

(* ===================================================================== *)
(** ** More on deletion timers *)
(* ===================================================================== *)

Lemma timersWithinGrace_step st i st' o :
  timersWithinGrace st -> step st i = Some (st', o) -> timersWithinGrace st'.
Proof.
  intros Hinv Hstep t Hin.
  step_inv Hstep; try (now apply Hinv).
  all: repeat match goal with
       | H : In _ (_ ++ _) |- _ => apply in_app_or in H; destruct H as [H|H]
       | H : In _ (clearTimerOf _ _ _) |- _ =>
           apply In_clearTimerOf in H; destruct H as [H _]
       | H : In _ (clearTimeout _ _) |- _ =>
           apply In_clearTimeout in H; destruct H as [H _]
       | H : In _ [_] |- _ => destruct H as [<-|[]]
       | H : (_ <? 0) = false |- _ => apply Z.ltb_ge in H
       end.
  all: try (now apply Hinv).
  all: try (simpl; split; [reflexivity|lia]).
  destruct (Hinv t Hin) as [Hd Hdue]. split; [assumption|lia].
Qed.

Lemma timersWithinGrace_run tr st outs :
  run init tr = Some (st, outs) -> timersWithinGrace st.
Proof.
  apply (run_invariant timersWithinGrace init).
  - intros t [].
  - intros; eapply timersWithinGrace_step; eauto.
Qed.

(** X14. In every state the server can reach, a [leave_room] arms a
    deletion timer exactly when it empties the room. When it does, the new
    timer is due 30000 ms from now, it replaces the timer its connection
    already held for that pin, and it is recorded in the connection's
    [roomTimers]; when other participants remain, no timer is armed or
    cancelled. *)
Theorem leave_arms_a_timer_exactly_when_the_room_empties
    tr st outs sid sk pin :
  run init tr = Some (st, outs) ->
  liveSocket sid st = Some sk ->
  currentRoom sk = Some pin ->
  exists room st' o,
    JSMap.get pin (rooms st) = Some room
    /\ step st (LeaveRoom sid) = Some (st', o)
    /\ (JSMap.size (JSMap.delete sid (participants room)) = 0 ->
          pending st'
          = clearTimerOf pin (roomTimers sk) (pending st)
            ++ [{| tid := nextTimerId st; owner := sid; tpin := pin;
                   delay := 30000; due := now st + 30000 |}]
          /\ nextTimerId st' = nextTimerId st + 1
          /\ JSMap.get pin (roomTimers_of sid st') = Some (nextTimerId st))
    /\ (JSMap.size (JSMap.delete sid (participants room)) <> 0 ->
          pending st' = pending st
          /\ nextTimerId st' = nextTimerId st
          /\ roomTimers_of sid st' = roomTimers sk).
Proof.
  intros Hrun Hlive Hcur. destruct (liveSocket_get _ _ _ Hlive) as [Hget _].
  destruct (current_room_found tr st outs sid sk pin Hrun Hget Hcur)
    as (Htruthy & room & Hroom & _).
  exists room, (fst (leaveCurrentRoom sid sk st)), (snd (leaveCurrentRoom sid sk st)).
  split; [assumption|]. split.
  { unfold step. rewrite Hlive. now destruct (leaveCurrentRoom sid sk st). }
  unfold roomTimers_of, roomTimersIn, leaveCurrentRoom.
  rewrite Htruthy, Hroom. cbv zeta. cbn [fst]. simpl_fields.
  rewrite get_set_eq. simpl_fields. split.
  - intros Hzero. rewrite Hzero. simpl Z.eqb. cbv iota.
    split; [|split; [reflexivity|apply get_set_eq]].
    destruct (JSMap.has pin (roomTimers sk)) eqn:Hhas; [reflexivity|].
    now rewrite (clearTimerOf_absent _ _ _ Hhas).
  - intros Hpos. apply Z.eqb_neq in Hpos. rewrite Hpos. auto.
Qed.

Lemma leave_arms_a_timer_exactly_when_the_room_empties_witness :
  (exists st' o,
      step (stateAfter bobJoins) (LeaveRoom "b") = Some (st', o)
      /\ pending st' = [])
  /\ (exists st' o,
        step (stateAfter (aliceCreates ++ [Elapse 500])) (LeaveRoom "a")
        = Some (st', o)
        /\ pending st'
           = [{| tid := 1; owner := "a"; tpin := "100000";
                 delay := 30000; due := 30500 |}]).
Proof.
  split.
  - destruct (leave_arms_a_timer_exactly_when_the_room_empties
                bobJoins (stateAfter bobJoins) (outputsAfter bobJoins) "b"
                {| connected := true; nickname := Some "bob";
                   currentRoom := Some "100000"; joined := ["100000"];
                   roomTimers := [] |} "100000" eq_refl eq_refl eq_refl)
      as (room & st' & o & Hroom & Hstep & _ & Hstay).
    exists st', o. split; [assumption|].
    assert (E : room = {| number := "7";
                          participants := [("a", "alice"); ("b", "bob")];
                          maxParticipants := 2; messages := [] |}).
    { assert (H : Some room
                  = Some {| number := "7";
                            participants := [("a", "alice"); ("b", "bob")];
                            maxParticipants := 2; messages := [] |})
        by (rewrite <- Hroom; reflexivity).
      now injection H. }
    subst room. destruct Hstay as [Hp _]; [vm_compute; discriminate|].
    rewrite Hp. reflexivity.
  - destruct (leave_arms_a_timer_exactly_when_the_room_empties
                (aliceCreates ++ [Elapse 500])
                (stateAfter (aliceCreates ++ [Elapse 500]))
                (outputsAfter (aliceCreates ++ [Elapse 500])) "a"
                {| connected := true; nickname := Some "alice";
                   currentRoom := Some "100000"; joined := ["100000"];
                   roomTimers := [] |} "100000" eq_refl eq_refl eq_refl)
      as (room & st' & o & Hroom & Hstep & Hempty & _).
    exists st', o. split; [assumption|].
    assert (E : room = {| number := "7"; participants := [("a", "alice")];
                          maxParticipants := 2; messages := [] |}).
    { assert (H : Some room
                  = Some {| number := "7"; participants := [("a", "alice")];
                            maxParticipants := 2; messages := [] |})
        by (rewrite <- Hroom; reflexivity).
      now injection H. }
    subst room. destruct Hempty as [Hp _]; [vm_compute; reflexivity|].
    rewrite Hp. reflexivity.
Defined.

(** X15. If the room under a pin is empty (or gone) and, until a timer for
    that pin fires, no [join_room] names the pin and no [create_room]
    returns it, then after the timer has fired the pin is not in the
    registry and not among the available rooms. *)
Theorem an_empty_room_is_gone_once_its_timer_fires
    pin st tr st1 o1 i tm st2 o2 :
  emptyOrGone pin st ->
  forallb (fun i => negb (isJoinOf pin i)) tr = true ->
  run st tr = Some (st1, o1) ->
  ~ In pin (createdPins o1) ->
  findTimer i (pending st1) = Some tm ->
  tpin tm = pin ->
  step st1 (TimerFire i) = Some (st2, o2) ->
  JSMap.has pin (rooms st2) = false
  /\ ~ In pin (List.map ar_pin (getAvailableRooms (rooms st2)))
  /\ due tm <= now st1.
Proof.
  intros Hempty Hnj Hrun Hnc Hfind Hpin Hstep.
  destruct (empty_room_is_gone_after_timer pin st tr st1 o1 i tm st2 o2
              Hempty Hnj Hrun Hnc Hfind Hpin Hstep) as [Hgone Hlist].
  split; [assumption|]. split; [assumption|].
  destruct (timer_fires_when_due _ _ _ _ Hstep) as (tm' & Hfind' & Hdue).
  congruence.
Qed.

Lemma an_empty_room_is_gone_once_its_timer_fires_witness :
  JSMap.has "100000"
    (rooms (fst (runFrom (stateAfter (aliceLeaves ++ [Connect "b"; Elapse 30000]))
                   [TimerFire 1]))) = false
  /\ ~ In "100000"
         (List.map ar_pin
            (getAvailableRooms
               (rooms (fst (runFrom
                              (stateAfter (aliceLeaves ++ [Connect "b"; Elapse 30000]))
                              [TimerFire 1])))))
  /\ 30000 <= now (stateAfter (aliceLeaves ++ [Connect "b"; Elapse 30000])).
Proof.
  apply (an_empty_room_is_gone_once_its_timer_fires
           "100000" (stateAfter aliceLeaves) [Connect "b"; Elapse 30000]
           (stateAfter (aliceLeaves ++ [Connect "b"; Elapse 30000]))
           (snd (runFrom (stateAfter aliceLeaves) [Connect "b"; Elapse 30000]))
           1
           {| tid := 1; owner := "a"; tpin := "100000";
              delay := 30000; due := 30000 |}
           (fst (runFrom (stateAfter (aliceLeaves ++ [Connect "b"; Elapse 30000]))
                   [TimerFire 1]))
           (snd (runFrom (stateAfter (aliceLeaves ++ [Connect "b"; Elapse 30000]))
                   [TimerFire 1]))).
  - intros room Hroom. vm_compute in Hroom. injection Hroom as <-. reflexivity.
  - reflexivity.
  - reflexivity.
  - vm_compute. tauto.
  - reflexivity.
  - reflexivity.
  - reflexivity.
Defined.

(** X16. In every state the server can reach, pending timers have
    pairwise distinct ids below the next id to be handed out; each was armed
    with the 30000 ms grace period and is due at most 30000 ms from now;
    each is the timer its own connection's [roomTimers] records for its pin;
    so one connection never holds two pending timers for the same pin. *)
Theorem pending_timers_are_tracked_by_their_connection tr st outs :
  run init tr = Some (st, outs) ->
  NoDup (List.map tid (pending st))
  /\ (forall t, In t (pending st) ->
        tid t < nextTimerId st
        /\ delay t = 30000
        /\ due t <= now st + 30000
        /\ JSMap.get (tpin t) (roomTimers_of (owner t) st) = Some (tid t))
  /\ (forall t1 t2,
        In t1 (pending st) -> In t2 (pending st) ->
        owner t1 = owner t2 -> tpin t1 = tpin t2 -> t1 = t2).
Proof.
  intros Hrun. destruct (timersTracked_run tr st outs Hrun) as [Htrack Hnd].
  pose proof (timersWithinGrace_run tr st outs Hrun) as Hgrace.
  split; [assumption|]. split.
  - intros t Hin. destruct (Htrack t Hin) as [Hlt Hrec].
    destruct (Hgrace t Hin) as [Hd Hdue]. auto.
  - intros t1 t2 H1 H2 Hown Hpin.
    eapply one_timer_per_pin_per_connection; eauto.
Qed.

Lemma pending_timers_are_tracked_by_their_connection_witness :
  NoDup (List.map tid (pending (stateAfter bobLeaves)))
  /\ (tid bobsTimer < nextTimerId (stateAfter bobLeaves)
      /\ delay bobsTimer = 30000
      /\ due bobsTimer <= now (stateAfter bobLeaves) + 30000
      /\ JSMap.get (tpin bobsTimer)
           (roomTimers_of (owner bobsTimer) (stateAfter bobLeaves))
         = Some (tid bobsTimer)).
Proof.
  destruct (pending_timers_are_tracked_by_their_connection
              bobLeaves (stateAfter bobLeaves) (outputsAfter bobLeaves) eq_refl)
    as (Hnd & Hall & _).
  split; [exact Hnd|].
  apply Hall. vm_compute. right. left. reflexivity.
Defined.

(** X17. In every state the server can reach, the Socket.IO rooms mirror
    the participant maps: a socket has joined the Socket.IO room of a pin
    exactly when it is connected and a participant of the room under that
    pin. So an emit to the room of a pin reaches exactly the connected
    participants of that room, and nobody when the pin is not in the
    registry. *)
Theorem socket_io_rooms_mirror_the_participant_maps tr st outs :
  run init tr = Some (st, outs) ->
  (forall sid sk pin,
      JSMap.get sid (sockets st) = Some sk ->
      (In pin (joined sk)
       <-> connected sk = true /\ inRoom sid pin (rooms st) = true))
  /\ (forall pin, deliver st (ToRoom pin) = connectedParticipants pin st)
  /\ (forall pin, JSMap.has pin (rooms st) = false ->
                  deliver st (ToRoom pin) = []).
Proof.
  intros Hrun. destruct (sioMatches_run tr st outs Hrun) as (Hnd & HJ & _).
  split; [|split].
  - intros sid sk pin Hget. specialize (HJ sid sk pin Hget).
    rewrite <- andb_true_iff, <- HJ, existsb_exists. split.
    + intros Hin. exists pin. split; [assumption|apply String.eqb_refl].
    + intros [x [Hin Hx]]. apply String.eqb_eq in Hx. now subst.
  - intros pin. exact (deliver_to_room tr st outs pin Hrun).
  - intros pin Hgone. rewrite (deliver_to_room tr st outs pin Hrun).
    unfold connectedParticipants.
    replace (List.filter _ (sockets st)) with (@nil (string * Socket));
      [reflexivity|].
    symmetry. clear Hnd HJ.
    induction (sockets st) as [|[k v] m IH]; simpl; [reflexivity|].
    rewrite (inRoom_absent k pin _ Hgone), andb_false_r. exact IH.
Qed.

Lemma socket_io_rooms_mirror_the_participant_maps_witness :
  deliver (stateAfter bobJoins) (ToRoom "100000") = ["a"; "b"]
  /\ deliver (stateAfter bobJoins) (ToRoom "999999") = [].
Proof.
  destruct (socket_io_rooms_mirror_the_participant_maps
              bobJoins (stateAfter bobJoins) (outputsAfter bobJoins) eq_refl)
    as (_ & Hroom & Hnone).
  split.
  - rewrite (Hroom "100000"). reflexivity.
  - apply Hnone. reflexivity.
Defined.

(* ===================================================================== *)
(** ** Nicknames *)
(* ===================================================================== *)















(** X19. The server never removes a participant on behalf of someone
    else: if a socket is in a room's participant map before a turn and not
    after it, while the room is still in the registry, then the turn was that
    socket's own [leave_room] or [disconnect] and the room was its current
    room. *)
Theorem a_participant_is_removed_only_by_its_own_leave
    st i st' outs pin room room' x :
  step st i = Some (st', outs) ->
  JSMap.get pin (rooms st) = Some room ->
  JSMap.has x (participants room) = true ->
  JSMap.get pin (rooms st') = Some room' ->
  JSMap.has x (participants room') = false ->
  (i = LeaveRoom x \/ i = Disconnect x)
  /\ exists sk, liveSocket x st = Some sk /\ truthy (currentRoom sk) = Some pin.
Proof.
  intros Hstep Hroom Hin Hroom' Hout.
  step_inv Hstep; simpl in Hroom';
    try (rewrite Hroom in Hroom'; injection Hroom' as <-; congruence).
  all: get_set_cases Hroom'; simpl_fields.
  all: try (rewrite Hroom in Hroom'; injection Hroom' as <-; congruence).
  all: try (new_pin_is_free; congruence).
  all: try match goal with
       | H : JSMap.get ?p (rooms ?s) = Some ?r, H' : JSMap.get ?p (rooms ?s) = Some ?r'
         |- _ => rewrite H in H'; injection H' as <-
       end.
  all: try (rewrite has_set, Hin, orb_true_r in Hout; discriminate).
  all: try congruence.
  all: try (rewrite has_delete, Hin, andb_true_r in Hout;
            apply negb_false_iff, String.eqb_eq in Hout; subst;
            split; [auto|eexists; split; [eassumption|assumption]]).
  apply get_delete_Some in Hroom'. congruence.
Qed.

Lemma a_participant_is_removed_only_by_its_own_leave_witness :
  (LeaveRoom "b" = LeaveRoom "b" \/ LeaveRoom "b" = Disconnect "b")
  /\ exists sk, liveSocket "b" (stateAfter bobJoins) = Some sk
                /\ truthy (currentRoom sk) = Some "100000".
Proof.
  apply (a_participant_is_removed_only_by_its_own_leave
           (stateAfter bobJoins) (LeaveRoom "b")
           (fst (runFrom (stateAfter bobJoins) [LeaveRoom "b"]))
           (snd (runFrom (stateAfter bobJoins) [LeaveRoom "b"]))
           "100000"
           {| number := "7"; participants := [("a", "alice"); ("b", "bob")];
              maxParticipants := 2; messages := [] |}
           {| number := "7"; participants := [("a", "alice")];
              maxParticipants := 2; messages := [] |}
           "b");
    reflexivity.
Defined.

(* ===================================================================== *)
(** * Properties of the client's message list *)
(* ===================================================================== *)

Lemma truthy_Some s i : truthy s = Some i -> s = Some i /\ i <> "".
Proof.
  unfold truthy. destruct s as [x|]; [|discriminate].
  destruct (String.eqb x "") eqn:E; [discriminate|].
  intros [= <-]. split; [reflexivity|now apply String.eqb_neq].
Qed.

Lemma truthy_of_Some i : i <> "" -> truthy (Some i) = Some i.
Proof. intros H. unfold truthy. apply String.eqb_neq in H. now rewrite H. Qed.

Lemma dedupIds_app l1 l2 : dedupIds (l1 ++ l2) = dedupIds l1 ++ dedupIds l2.
Proof. unfold dedupIds. apply flat_map_app. Qed.

Lemma dedupIds_single m i : truthy (msg_id m) = Some i -> dedupIds [m] = [i].
Proof. intros H. unfold dedupIds. simpl. now rewrite H. Qed.

(** The [prev.some(m => m.id === msg.id)] test finds the id exactly when it
    is among the ids of the list. *)
Lemma some_same_id msg i prev :
  truthy (msg_id msg) = Some i ->
  existsb (fun m => sameId (msg_id m) (msg_id msg)) prev = true
  <-> In i (dedupIds prev).
Proof.
  intros Hid. destruct (truthy_Some _ _ Hid) as [Hmsg Hne]. rewrite Hmsg.
  unfold dedupIds. rewrite existsb_exists, in_flat_map. split.
  - intros [m [Hin Hsame]]. exists m. split; [assumption|].
    destruct (msg_id m) as [x|]; simpl in Hsame; [|discriminate].
    apply String.eqb_eq in Hsame. subst x. rewrite (truthy_of_Some i Hne).
    now left.
  - intros [m [Hin Hi]]. exists m. split; [assumption|].
    destruct (truthy (msg_id m)) as [x|] eqn:E; [|destruct Hi].
    destruct Hi as [Hx|[]]. subst x. apply truthy_Some in E.
    destruct E as [E _]. rewrite E. simpl. apply String.eqb_refl.
Qed.

Lemma receive_known msg i prev :
  truthy (msg_id msg) = Some i -> In i (dedupIds prev) ->
  onReceiveMessage msg prev = prev.
Proof.
  intros Hid Hin. unfold onReceiveMessage. rewrite Hid.
  apply (some_same_id msg i prev Hid) in Hin. now rewrite Hin.
Qed.

Lemma receive_new msg i prev :
  truthy (msg_id msg) = Some i -> ~ In i (dedupIds prev) ->
  onReceiveMessage msg prev = prev ++ [msg].
Proof.
  intros Hid Hnew. unfold onReceiveMessage. rewrite Hid.
  destruct (existsb _ prev) eqn:E; [|reflexivity].
  apply (some_same_id msg i prev Hid) in E. contradiction.
Qed.

Lemma receive_prefix msg prev : isPrefix prev (onReceiveMessage msg prev).
Proof.
  unfold onReceiveMessage. destruct (truthy (msg_id msg)).
  - destruct (existsb _ prev); [apply isPrefix_refl|now exists [msg]].
  - now exists [msg].
Qed.

Lemma receiveAll_prefix msgs : forall prev, isPrefix prev (receiveAll msgs prev).
Proof.
  induction msgs as [|m ms IH]; intros prev; simpl.
  - apply isPrefix_refl.
  - eapply isPrefix_trans; [apply receive_prefix|apply IH].
Qed.

Lemma receiveAll_app ms1 ms2 prev :
  receiveAll (ms1 ++ ms2) prev = receiveAll ms2 (receiveAll ms1 prev).
Proof. unfold receiveAll. apply fold_left_app. Qed.

Lemma dedupIds_prefix l1 l2 i :
  isPrefix l1 l2 -> In i (dedupIds l1) -> In i (dedupIds l2).
Proof.
  intros [rest ->] Hin. rewrite dedupIds_app. apply in_or_app. now left.
Qed.

Lemma receive_unique msg prev :
  NoDup (dedupIds prev) -> NoDup (dedupIds (onReceiveMessage msg prev)).
Proof.
  intros Hnd. unfold onReceiveMessage.
  destruct (truthy (msg_id msg)) as [i|] eqn:Hid.
  - destruct (existsb _ prev) eqn:E; [assumption|].
    rewrite dedupIds_app, (dedupIds_single msg i Hid).
    apply NoDup_app; [assumption|repeat constructor; simpl; tauto|].
    intros x Hx [Hi|[]]. subst x.
    apply (some_same_id msg i prev Hid) in Hx. congruence.
  - rewrite dedupIds_app. unfold dedupIds at 2. simpl. rewrite Hid. simpl.
    now rewrite app_nil_r.
Qed.

Lemma receiveAll_unique msgs : forall prev,
  NoDup (dedupIds prev) -> NoDup (dedupIds (receiveAll msgs prev)).
Proof.
  induction msgs as [|m ms IH]; intros prev Hnd; simpl; [assumption|].
  apply IH. now apply receive_unique.
Qed.

Lemma receiveAll_known msgs : forall prev,
  (forall m, In m msgs ->
     exists i, truthy (msg_id m) = Some i /\ In i (dedupIds prev)) ->
  receiveAll msgs prev = prev.
Proof.
  induction msgs as [|m ms IH]; intros prev Hall; simpl; [reflexivity|].
  destruct (Hall m (or_introl eq_refl)) as (i & Hid & Hin).
  rewrite (receive_known m i prev Hid Hin). apply IH.
  intros m' Hm'. apply Hall. now right.
Qed.

Lemma receiveAll_learns msgs : forall prev m i,
  In m msgs -> truthy (msg_id m) = Some i ->
  In i (dedupIds (receiveAll msgs prev)).
Proof.
  induction msgs as [|m0 ms IH]; intros prev m i Hin Hid; [destruct Hin|].
  simpl. destruct Hin as [->|Hin]; [|eapply IH; eauto].
  apply dedupIds_prefix with (onReceiveMessage m prev);
    [apply receiveAll_prefix|].
  destruct (in_dec string_dec i (dedupIds prev)) as [Hk|Hn].
  - now rewrite (receive_known m i prev Hid Hk).
  - rewrite (receive_new m i prev Hid Hn), dedupIds_app,
      (dedupIds_single m i Hid).
    apply in_or_app. right. now left.
Qed.

(** X20. The client's [receive_message] listener shows a message that
    carries an id at most once: if a message with that id is already in the
    list the list is left as it is, otherwise the message is added at the
    end, so receiving it a second time changes nothing. A message without an
    id (or with an empty one) is added every time it arrives. *)
Theorem client_shows_an_identified_message_once msg prev :
  (forall i, truthy (msg_id msg) = Some i ->
     (In i (dedupIds prev) -> onReceiveMessage msg prev = prev)
     /\ (~ In i (dedupIds prev) -> onReceiveMessage msg prev = prev ++ [msg])
     /\ onReceiveMessage msg (onReceiveMessage msg prev)
        = onReceiveMessage msg prev)
  /\ (truthy (msg_id msg) = None ->
        onReceiveMessage msg prev = prev ++ [msg]
        /\ onReceiveMessage msg (onReceiveMessage msg prev)
           = prev ++ [msg; msg]).
Proof.
  split.
  - intros i Hid. split; [now apply receive_known|].
    split; [now apply receive_new|].
    apply (receive_known msg i); [assumption|].
    apply (receiveAll_learns [msg] prev msg i); [now left|assumption].
  - intros Hnone. unfold onReceiveMessage. rewrite Hnone.
    split; [reflexivity|]. now rewrite <- app_assoc.
Qed.

Lemma client_shows_an_identified_message_once_witness :
  (onReceiveMessage hola [adios; hola] = [adios; hola]
   /\ onReceiveMessage hola [adios] = [adios; hola]
   /\ onReceiveMessage hola (onReceiveMessage hola [adios])
      = onReceiveMessage hola [adios])
  /\ (onReceiveMessage adios [hola] = [hola; adios]
      /\ onReceiveMessage adios (onReceiveMessage adios [hola])
         = [hola; adios; adios]).
Proof.
  split.
  - destruct (proj1 (client_shows_an_identified_message_once hola [adios; hola])
                "m1" eq_refl) as (Hknown & _ & _).
    destruct (proj1 (client_shows_an_identified_message_once hola [adios])
                "m1" eq_refl) as (_ & Hnew & Hagain).
    split; [apply Hknown; simpl; auto|].
    split; [apply Hnew; simpl; tauto|exact Hagain].
  - apply (proj2 (client_shows_an_identified_message_once adios [hola])).
    reflexivity.
Defined.



(** X22. The ids in the client's message list stay pairwise distinct
    through any sequence of [receive_message] events, whatever arrives; and
    when the server's broadcasts, all carrying ids, are delivered a second
    time, the list is the same as after the first delivery. *)
Theorem client_ids_stay_unique_and_replay_is_harmless msgs prev :
  (NoDup (dedupIds prev) -> NoDup (dedupIds (receiveAll msgs prev)))
  /\ ((forall m, In m msgs -> truthy (msg_id m) <> None) ->
      receiveAll (msgs ++ msgs) prev = receiveAll msgs prev).
Proof.
  split; [apply receiveAll_unique|].
  intros Hids. rewrite receiveAll_app. apply receiveAll_known.
  intros m Hin. destruct (truthy (msg_id m)) as [i|] eqn:Hid;
    [|exfalso; now apply (Hids m Hin)].
  exists i. split; [reflexivity|]. eapply receiveAll_learns; eauto.
Qed.

Lemma client_ids_stay_unique_and_replay_is_harmless_witness :
  NoDup (dedupIds (receiveAll [hola; adios; hola] []))
  /\ receiveAll ([hola] ++ [hola]) [adios] = receiveAll [hola] [adios].
Proof.
  split.
  - apply (proj1 (client_ids_stay_unique_and_replay_is_harmless
                    [hola; adios; hola] [])).
    constructor.
  - apply (proj2 (client_ids_stay_unique_and_replay_is_harmless [hola] [adios])).
    intros m [<-|[]]. discriminate.
Defined.
